(** * Multi-Model AI Response Fusion: the judge parser, the markup
      normaliser and the fan-out of [main.py], embedded in Rocq.

    Python [str] values are sequences of code points.  They are modelled
    as lists of [ascii], read as the code points U+0000..U+00FF; the
    predicates [is_space] and [is_digit] are Python's on that range. *)

From Stdlib Require Import Ascii String.
From stdpp Require Import gmap strings list fin_maps.

Local Open Scope list_scope.

(** ** Python strings *)

Module Py.

Definition str := list ascii.

(** A string literal of the source. *)
Definition lit (s : string) : str := list_ascii_of_string s.

Definition nl : ascii := ascii_of_nat 10.
Definition dquote : ascii := ascii_of_nat 34.

Definition ch_eqb (a b : ascii) : bool := Ascii.eqb a b.

(** [str.isspace] on one code point, which is also what [str.strip()]
    removes and what the regex class [\s] matches:
    U+0009..U+000D, U+001C..U+001F, U+0020, U+0085, U+00A0. *)
Definition is_space (c : ascii) : bool :=
  let n := nat_of_ascii c in
  ((9 <=? n) && (n <=? 13)) || ((28 <=? n) && (n <=? 32))
  || (n =? 133) || (n =? 160).

(** The regex class [\d]: the decimal digits, ['0'..'9'] on this range. *)
Definition is_digit (c : ascii) : bool :=
  let n := nat_of_ascii c in (48 <=? n) && (n <=? 57).

Fixpoint take_while (p : ascii -> bool) (s : str) : str :=
  match s with
  | [] => []
  | c :: r => if p c then c :: take_while p r else []
  end.

Fixpoint drop_while (p : ascii -> bool) (s : str) : str :=
  match s with
  | [] => []
  | c :: r => if p c then drop_while p r else s
  end.

(** [s.lstrip()], [s.rstrip()], [s.strip()] *)
Definition lstrip (s : str) : str := drop_while is_space s.
Definition rstrip (s : str) : str := rev (drop_while is_space (rev s)).
Definition strip (s : str) : str := rstrip (lstrip s).

(** [s.startswith(p)] *)
Fixpoint startswith (p s : str) : bool :=
  match p, s with
  | [], _ => true
  | _ :: _, [] => false
  | a :: p', b :: s' => ch_eqb a b && startswith p' s'
  end.

(** [s.endswith(p)] *)
Definition endswith (p s : str) : bool := startswith (rev p) (rev s).

(** [s.split('\n')] *)
Fixpoint split_nl (s : str) : list str :=
  match s with
  | [] => [[]]
  | c :: r =>
      if ch_eqb c nl then [] :: split_nl r
      else match split_nl r with
           | l :: ls => (c :: l) :: ls
           | [] => [[c]]
           end
  end.

(** ['\n'.join(ls)] *)
Fixpoint join_nl (ls : list str) : str :=
  match ls with
  | [] => []
  | [l] => l
  | l :: ls' => l ++ nl :: join_nl ls'
  end.

(** [s.replace(old, new)]: the occurrences of [old] are found from the
    left and do not overlap.  [skip] counts the characters of a found
    occurrence that are still to be passed over. *)
Fixpoint replace_from (old new : str) (skip : nat) (s : str) : str :=
  match s with
  | [] => []
  | c :: r =>
      match skip with
      | S k => replace_from old new k r
      | O =>
          if startswith old s
          then new ++ replace_from old new (length old - 1) r
          else c :: replace_from old new 0 r
      end
  end.

Definition replace (old new s : str) : str :=
  match old with
  | [] => new ++ flat_map (fun c => c :: new) s
  | _ :: _ => replace_from old new 0 s
  end.

(** [sub in s] *)
Fixpoint contains (sub s : str) : bool :=
  startswith sub s ||
  match s with
  | [] => false
  | _ :: r => contains sub r
  end.

(** Truthiness of a string: [not s] holds of the empty string only. *)
Definition falsy (s : str) : bool :=
  match s with [] => true | _ => false end.

(** [s.upper()] on the letters a..z.  The parser uses it only in a test
    whose two branches assign the same value. *)
Definition upper_char (c : ascii) : ascii :=
  let n := nat_of_ascii c in
  if (97 <=? n) && (n <=? 122) then ascii_of_nat (n - 32) else c.

(** No proper suffix of [m] is a prefix of [m]: two occurrences of [m]
    cannot overlap. *)
Definition unbordered (m : str) : bool :=
  forallb (fun k => negb (bool_decide (drop k m = take (length m - k) m)))
          (seq 1 (length m - 1)).

End Py.

Import Py.

(** ** The judge parser ([process_with_judge], lines 182-226) *)

Module Judge.

Definition FINAL_ANSWER : str := lit "FINAL_ANSWER:".
Definition REASONING : str := lit "REASONING:".

Inductive section := NoSection | InFinalAnswer | InReasoning.

Record scan_state := ScanState {
  final_answer : str;
  reasoning : str;
  current_section : section
}.

Definition scan_init : scan_state := ScanState [] [] NoSection.

(** The body of the [for] loop over the lines. *)
Definition scan_line (st : scan_state) (line : str) : scan_state :=
  if startswith FINAL_ANSWER line then
    ScanState (strip (replace FINAL_ANSWER [] line)) (reasoning st) InFinalAnswer
  else if startswith REASONING line then
    ScanState (final_answer st) (strip (replace REASONING [] line)) InReasoning
  else
    match current_section st with
    | InFinalAnswer =>
        ScanState (final_answer st ++ lit " " ++ strip line) (reasoning st)
                  InFinalAnswer
    | InReasoning =>
        ScanState (final_answer st) (reasoning st ++ lit " " ++ strip line)
                  InReasoning
    | NoSection => st
    end.

Definition scan_lines (st : scan_state) (lines : list str) : scan_state :=
  fold_left scan_line lines st.

Record JudgeResult := mkJudgeResult {
  jr_final_answer : str;
  jr_reasoning : str
}.

(** The parser: the scan, the fallback, the trimmed result. *)
Definition parse_judge (judge_response : str) : JudgeResult :=
  let st := scan_lines scan_init (split_nl judge_response) in
  let fa :=
    if falsy (strip (final_answer st)) && falsy (strip (reasoning st)) then
      let response_upper := map upper_char judge_response in
      if contains (lit "FINAL_ANSWER:") response_upper
         || contains (lit "FINAL ANSWER:") response_upper
      then strip judge_response
      else strip judge_response
    else final_answer st in
  mkJudgeResult (strip fa) (strip (reasoning st)).

(** What the lines after a marker line add to the active field. *)
Definition continuation (lines : list str) : str :=
  concat (map (fun l => lit " " ++ strip l) lines).

Definition is_marker_line (line : str) : bool :=
  startswith FINAL_ANSWER line || startswith REASONING line.

(** The pieces of a line put together again with [sep] between them. *)
Fixpoint join_with (sep : str) (pieces : list str) : str :=
  match pieces with
  | [] => []
  | [p] => p
  | p :: ps => p ++ sep ++ join_with sep ps
  end.

End Judge.

(** ** Regular-expression substitution *)

Module Re.

(** [re.sub] for a pattern that matches no empty string.  The text is
    scanned from the left; [m bol s] tries the pattern at the current
    position, [s] being the text from there on and [bol] telling whether
    [^] (under [re.MULTILINE]) holds there, and gives the length of the
    match and its replacement.  After a match the scan resumes at its
    end: [skip] counts the matched characters still to be passed over. *)
Definition matcher := bool -> str -> option (nat * str).

Fixpoint sub_from (m : matcher) (bol : bool) (skip : nat) (s : str) : str :=
  match s with
  | [] => []
  | c :: r =>
      match skip with
      | S k => sub_from m (ch_eqb c nl) k r
      | O =>
          match m bol s with
          | Some (n, repl) => repl ++ sub_from m (ch_eqb c nl) (n - 1) r
          | None => c :: sub_from m (ch_eqb c nl) 0 r
          end
      end
  end.

Definition sub (m : matcher) (s : str) : str := sub_from m true 0 s.

(** The lazy [.*?] followed by the literal [close]: the number of
    characters [.*?] takes, the least that lets [close] follow.  Without
    [re.DOTALL] the dot matches no newline. *)
Fixpoint find_lazy (close : str) (dotall : bool) (s : str) : option nat :=
  if startswith close s then Some 0
  else match s with
       | [] => None
       | c :: r =>
           if negb dotall && ch_eqb c nl then None
           else option_map S (find_lazy close dotall r)
       end.

Definition not_nl (c : ascii) : bool := negb (ch_eqb c nl).

(** The pattern [^] [#{k}] [\s*] [( .* )] under [re.MULTILINE], replaced by
    [<hk>\1</hk>]: [k] hashes at the start of a line, the longest run of
    white space (newlines too), then group 1, the rest of that line. *)
Definition m_header (k : nat) (open close : str) : matcher := fun bol s =>
  if bol && startswith (repeat "#"%char k) s then
    let r1 := drop k s in
    let ws := take_while is_space r1 in
    let g := take_while not_nl (drop (length ws) r1) in
    Some (k + length ws + length g, open ++ g ++ close)
  else None.

(** [^---+] with [re.MULTILINE], replaced by [<hr>]. *)
Definition m_rule : matcher := fun bol s =>
  if bol && startswith (lit "---") s then
    Some (length (take_while (ch_eqb "-"%char) s), lit "<hr>")
  else None.

(** Two asterisks, a lazy group 1 of any characters but newlines, two
    asterisks; replaced by [<strong>\1</strong>]. *)
Definition m_bold : matcher := fun _ s =>
  if startswith (lit "**") s then
    match find_lazy (lit "**") false (drop 2 s) with
    | Some k =>
        Some (2 + k + 2, lit "<strong>" ++ take k (drop 2 s) ++ lit "</strong>")
    | None => None
    end
  else None.

(** An asterisk, a lazy group 1 of any characters but newlines, an
    asterisk; replaced by [<em>\1</em>]. *)
Definition m_italic : matcher := fun _ s =>
  if startswith (lit "*") s then
    match find_lazy (lit "*") false (drop 1 s) with
    | Some k => Some (1 + k + 1, lit "<em>" ++ take k (drop 1 s) ++ lit "</em>")
    | None => None
    end
  else None.

(** One round of the repeated group under [re.DOTALL]: [<li>], lazily any
    characters, [</li>], and a newline if there is one. *)
Definition li_item (s : str) : option nat :=
  if startswith (lit "<li>") s then
    match find_lazy (lit "</li>") true (drop 4 s) with
    | Some k =>
        let n := 4 + k + 5 in
        Some (if startswith [nl] (drop n s) then S n else n)
    | None => None
    end
  else None.

(** The greedy repetition of the group: the total length of the rounds. *)
Fixpoint li_rounds (fuel : nat) (s : str) : nat :=
  match fuel with
  | O => 0
  | S f =>
      match li_item s with
      | Some n => n + li_rounds f (drop n s)
      | None => 0
      end
  end.

(** One or more rounds of the group; the match [m.group(0)] is wrapped in
    the opening tag of an unstyled list with a newline, and [</ul>]. *)
Definition m_li_group : matcher := fun _ s =>
  match li_rounds (length s) s with
  | O => None
  | (S _) as n =>
      Some (n, lit "<ul class=" ++ dquote :: lit "list-unstyled" ++ dquote ::
               lit ">" ++ nl :: take n s ++ lit "</ul>")
  end.

(** [<p></p>], replaced by the empty string. *)
Definition m_empty_p : matcher := fun _ s =>
  if startswith (lit "<p></p>") s then Some (7, []) else None.

(** [<br>\s*<br>], replaced by [<br>]. *)
Definition m_br : matcher := fun _ s =>
  if startswith (lit "<br>") s then
    let ws := take_while is_space (drop 4 s) in
    if startswith (lit "<br>") (drop (4 + length ws) s)
    then Some (4 + length ws + 4, lit "<br>")
    else None
  else None.

(** [\n+], replaced by one newline. *)
Definition m_newlines : matcher := fun _ s =>
  match take_while (ch_eqb nl) s with
  | [] => None
  | (_ :: _) as run => Some (length run, [nl])
  end.

(** [re.match(r'^\d+\.\s', line)] *)
Definition match_numbered (line : str) : bool :=
  let ds := take_while is_digit line in
  match ds, drop (length ds) line with
  | _ :: _, dot :: sp :: _ => ch_eqb dot "."%char && is_space sp
  | _, _ => false
  end.

(** [re.sub(r'^[-\d\.]+\s*', '', line)]: without [re.MULTILINE] the
    pattern can match at the start of the line only. *)
Definition bullet_char (c : ascii) : bool :=
  ch_eqb c "-"%char || is_digit c || ch_eqb c "."%char.

Definition strip_bullet (line : str) : str :=
  match take_while bullet_char line with
  | [] => line
  | _ :: _ => drop_while is_space (drop_while bullet_char line)
  end.

(** The text after a line: nothing, or a newline and more. *)
Definition line_end (rest : str) : Prop :=
  rest = [] \/ exists r, rest = nl :: r.

(** The pattern [m] on the line [l] does what [f] does, whatever follows
    the line: it leaves the line alone, or matches within the line, from
    its start. *)
Definition local_on (m : matcher) (f : str -> str) (l : str) : Prop :=
  forall rest, line_end rest ->
    match m true (l ++ rest) with
    | None => f l = l
    | Some (n, r) => 1 <= n /\ n <= length l /\ f l = r ++ drop n l
    end.

(** The common shape of the two emphasis patterns: the delimiter [d], a
    lazy group 1 without newlines, the delimiter again. *)
Definition m_delimited (d open close : str) : matcher := fun _ s =>
  if startswith d s then
    match find_lazy d false (drop (length d) s) with
    | Some k =>
        Some (length d + k + length d,
              open ++ take k (drop (length d) s) ++ close)
    | None => None
    end
  else None.

(** A pattern that never looks past the end of the line it is tried on,
    and whose replacement has no newline. *)
Definition confined (m : matcher) : Prop :=
  forall bol x, forallb not_nl x = true ->
    (forall rest, m bol (x ++ nl :: rest) = m bol x)
    /\ (forall n r, m bol x = Some (n, r) ->
          1 <= n /\ n <= length x /\ forallb not_nl r = true).

End Re.

(** ** The markup normaliser ([convert_to_markup], lines 228-284) *)

Module Markup.

Import Re.

Definition BR : str := lit "<br>".

(** The body of the loop of step 5. *)
Definition process_line (line0 : str) : str :=
  let line := strip line0 in
  if falsy line then BR
  else if startswith (lit "<h") line && endswith (lit ">") line then line
  else if startswith (lit "<hr>") line then line
  else if startswith (lit "- ") line || match_numbered line then
    lit "<li>" ++ strip_bullet line ++ lit "</li>"
  else if startswith (lit "> ") line then
    lit "<blockquote class=" ++ dquote :: lit "blockquote" ++ dquote ::
    lit "><p>" ++ drop 2 line ++ lit "</p></blockquote>"
  else lit "<p>" ++ line ++ lit "</p>".

(** Steps 1 and 2: headers, then rules. *)
Definition headers_and_rules (text : str) : str :=
  let text := sub (m_header 3 (lit "<h3>") (lit "</h3>")) text in
  let text := sub (m_header 2 (lit "<h2>") (lit "</h2>")) text in
  let text := sub (m_header 1 (lit "<h1>") (lit "</h1>")) text in
  sub m_rule text.

(** Steps 3 and 4: bold, then italic. *)
Definition emphasis (text : str) : str :=
  sub m_italic (sub m_bold text).

(** Step 5: the lines, each processed and joined again. *)
Definition process_lines (text : str) : str :=
  join_nl (map process_line (split_nl text)).

(** Steps 6 and 7 and the final [strip]. *)
Definition group_items (text : str) : str := sub m_li_group text.

Definition clean_up (text : str) : str :=
  sub m_newlines (sub m_br (sub m_empty_p text)).

Definition convert_to_markup (text : str) : str :=
  if falsy text then []
  else strip (clean_up (group_items (process_lines
                (emphasis (headers_and_rules text))))).

(** *** The specification of steps 1 and 2, line by line *)

(** One header substitution on one line. *)
Definition heading (k : nat) (open close : str) (line : str) : str :=
  if startswith (repeat "#"%char k) line
  then open ++ lstrip (drop k line) ++ close
  else line.

(** The rule substitution on one line. *)
Definition rule (line : str) : str :=
  if startswith (lit "---") line
  then lit "<hr>" ++ drop_while (ch_eqb "-"%char) line
  else line.

(** What the specification says of one line: a header line becomes a
    heading of its level, a line of three dashes or more a rule. *)
Definition convert_line (line : str) : str :=
  if startswith (lit "###") line then
    lit "<h3>" ++ lstrip (drop 3 line) ++ lit "</h3>"
  else if startswith (lit "##") line then
    lit "<h2>" ++ lstrip (drop 2 line) ++ lit "</h2>"
  else if startswith (lit "#") line then
    lit "<h1>" ++ lstrip (drop 1 line) ++ lit "</h1>"
  else if startswith (lit "---") line then
    lit "<hr>" ++ drop_while (ch_eqb "-"%char) line
  else line.

(** A header without a title: one to three hashes, then white space
    only.  The pattern of step 1 then reads on into the next lines. *)
Definition bare_header (line : str) : bool :=
  existsb (fun k => startswith (repeat "#"%char k) line
                    && falsy (lstrip (drop k line))) [3; 2; 1].

Definition one_line (line : str) : bool := forallb Re.not_nl line.

(** A line that has a title if it is a header of [k] hashes: the header
    pattern then stays on the line. *)
Definition titled (k : nat) (l : str) : Prop :=
  startswith (repeat "#"%char k) l = true -> lstrip (drop k l) <> [].

(** Steps 1 to 5 on a text, and on one line of it. *)
Definition through_step_5 (text : str) : str :=
  process_lines (emphasis (headers_and_rules text)).

Definition line_through_step_5 (line : str) : str :=
  process_line (emphasis (convert_line line)).

(** *** Text that is already markup *)

(** A character and the one after it start nothing that steps 3, 4, 6
    and 7 look for: no asterisk, no opening of a list item, a paragraph,
    a break or a quote, no two newlines in a row. *)
Definition quiet_pair (c : ascii) (next : option ascii) : bool :=
  negb (ch_eqb "*"%char c) &&
  match next with
  | Some d =>
      negb (ch_eqb "<"%char c
            && (ch_eqb "l"%char d || ch_eqb "p"%char d || ch_eqb "b"%char d))
      && negb (ch_eqb nl c && ch_eqb nl d)
  | None => true
  end.

Fixpoint inert (s : str) : bool :=
  match s with
  | [] => true
  | c :: r => quiet_pair c (head r) && inert r
  end.

(** A line that step 5 recognises as a heading or a rule made earlier
    (it starts with [<h] and ends with [>]), and that is inert. *)
Definition recognised (line : str) : bool :=
  startswith (lit "<h") line && endswith (lit ">") line
  && inert line && one_line line.

End Markup.

(** ** The service: model calls, fan-out, judge, endpoints *)

Module Service.

Import Judge.

(** [s.lower()]: A..Z and U+00C0..U+00DE but U+00D7 move up by 32. *)
Definition lower_char (c : ascii) : ascii :=
  let n := nat_of_ascii c in
  if ((65 <=? n) && (n <=? 90))
     || ((192 <=? n) && (n <=? 222) && negb (n =? 215))
  then ascii_of_nat (n + 32) else c.

Definition lower (s : str) : str := map lower_char s.

Definition str_eqb (a b : str) : bool := bool_decide (a = b).

(** A raised exception: an [HTTPException], or any other [Exception]
    with its type name and its [str(e)]. *)
Inductive exn :=
| HTTPException (status_code : nat) (detail : str)
| OtherException (type_name : str) (message : str).

Record Message := mkMessage { role : str; content : str }.

(** What one call sends to the provider. *)
Record Request (Num : Type) := mkRequest {
  req_model : str;
  req_messages : list Message;
  req_max_tokens : Num;
  req_temperature : Num;
  req_top_p : Num;
  req_stream : bool
}.
Arguments mkRequest {Num}.
Arguments req_model {Num}.
Arguments req_messages {Num}.

(** [ModelResponse] and [WebResponse] *)
Record ModelResponse := mkModelResponse {
  mr_input : str;
  mr_models : option (gmap string str);
  mr_judge : JudgeResult
}.

Record WebResponse := mkWebResponse { response : str }.

Section WithProvider.

(** Python's numbers and their parsers [int] and [float], which raise a
    [ValueError] with some message on a bad literal. *)
Variable Num : Type.
Variable parse_int : str -> str + Num.
Variable parse_float : str -> str + Num.

(** [os.environ] *)
Variable environ : gmap string str.

(** [client.chat.completions.create]: it raises (with [str(e)]) or
    returns; without streaming the content of the first choice, with
    streaming the [delta.content] of each chunk. *)
Variable create_completion : Request Num -> str + str.
Variable create_stream : Request Num -> str + list (option str).

(** [validate_csrf_token] *)
Variable validate_csrf_token : str -> bool.

(** [str(e)] of the [ValidationError] with which pydantic 2 refuses
    [None] for a field declared [Dict[str, str]]. *)
Variable validation_error : str.

(** Computations: the requests sent to the provider so far are threaded
    through, and a computation returns or raises. *)
Definition M (A : Type) : Type :=
  list (Request Num) -> (exn + A) * list (Request Num).

Definition ret {A} (a : A) : M A := fun w => (inr a, w).
Definition raise {A} (e : exn) : M A := fun w => (inl e, w).
Definition bind {A B} (m : M A) (k : A -> M B) : M B := fun w =>
  match m w with
  | (inl e, w') => (inl e, w')
  | (inr a, w') => k a w'
  end.
Definition try_except {A} (m : M A) (handler : exn -> M A) : M A := fun w =>
  match m w with
  | (inl e, w') => handler e w'
  | (inr a, w') => (inr a, w')
  end.
Definition send (r : Request Num) : M unit := fun w => (inr tt, w ++ [r]).
Definition lift_value_error {A} (r : str + A) : M A :=
  match r with
  | inl msg => raise (OtherException (lit "ValueError") msg)
  | inr a => ret a
  end.

#[local] Instance M_ret : MRet M := @ret.
#[local] Instance M_bind : MBind M := fun A B k m => bind m k.

(** [os.getenv(k)] and [os.getenv(k, d)] *)
Definition getenv (k : string) : option str := environ !! k.
Definition getenv_or (k : string) (d : str) : str := default d (environ !! k).

(** The streamed fragments, those without content left out. *)
Fixpoint accumulate (chunks : list (option str)) (content : str) : str :=
  match chunks with
  | [] => content
  | Some ((_ :: _) as c) :: rest => accumulate rest (content ++ c)
  | _ :: rest => accumulate rest content
  end.

Definition call_cerebras_model (model user_input system_message : str) : M str :=
  max_tokens ← lift_value_error (parse_int (getenv_or "MAX_TOKENS" (lit "1024")));
  temperature ← lift_value_error (parse_float (getenv_or "TEMPERATURE" (lit "0.7")));
  top_p ← lift_value_error (parse_float (getenv_or "TOP_P" (lit "0.8")));
  let stream := str_eqb (lower (getenv_or "STREAM" (lit "false"))) (lit "true") in
  let messages :=
    (if falsy system_message then []
     else [mkMessage (lit "system") system_message])
    ++ [mkMessage (lit "user") user_input] in
  let request := mkRequest model messages max_tokens temperature top_p stream in
  let failed (e : str) : M str :=
    raise (HTTPException 500 (lit "Error calling " ++ model ++ lit ": " ++ e)) in
  _ ← send request;
  if stream then
    match create_stream request with
    | inl e => failed e
    | inr chunks => ret (accumulate chunks [])
    end
  else
    match create_completion request with
    | inl e => failed e
    | inr content => ret content
    end.

(** [str(os.getenv(k))] as an f-string prints it. *)
Definition show_env (k : string) : str := default (lit "None") (getenv k).

(** [model_responses.get(k, 'No response')] *)
Definition get_response (model_responses : gmap string str) (k : string) : str :=
  default (lit "No response") (model_responses !! k).

Definition judge_prompt (user_input : str) (model_responses : gmap string str) : str :=
  join_nl [
    lit "You are an expert AI judge tasked with synthesizing responses from multiple AI models.";
    [];
    lit "User Question: " ++ user_input;
    [];
    lit "Model Responses:";
    lit "MODEL1 (" ++ show_env "MODEL1" ++ lit "): " ++ get_response model_responses "MODEL1";
    [];
    lit "MODEL2 (" ++ show_env "MODEL2" ++ lit "): " ++ get_response model_responses "MODEL2";
    [];
    lit "MODEL3 (" ++ show_env "MODEL3" ++ lit "): " ++ get_response model_responses "MODEL3";
    [];
    lit "Please provide:";
    lit "1. A final synthesized answer that combines the best aspects of all three responses";
    lit "2. Your reasoning for how you arrived at this synthesis";
    [];
    lit "IMPORTANT: Format your FINAL_ANSWER section using proper HTML markup:";
    lit "- Use <h1>, <h2>, <h3> for headers";
    lit "- Use <strong> for bold text instead of **bold**";
    lit "- Use <em> for italic text instead of *italic*";
    lit "- Use <ul><li> for bullet lists instead of - bullets";
    lit "- Use <ol><li> for numbered lists instead of 1. 2. 3.";
    lit "- Use <p> for paragraphs";
    lit "- Use <hr> for horizontal rules instead of ---";
    lit "- Use <blockquote> for quotes instead of >";
    [];
    lit "Format your response as:";
    lit "FINAL_ANSWER: [Your synthesized response in HTML format here]";
    lit "REASONING: [Your reasoning process here]" ].

Definition judge_system_message : str :=
  lit "You are an expert AI judge that synthesizes multiple AI responses into a single, high-quality answer.".

Definition process_with_judge (user_input : str)
    (model_responses : gmap string str) : M JudgeResult :=
  match getenv "JUDGE" with
  | Some ((_ :: _) as judge_model) =>
      judge_response ←
        call_cerebras_model judge_model
          (judge_prompt user_input model_responses) judge_system_message;
      ret (parse_judge judge_response)
  | _ => raise (HTTPException 500 (lit "Judge model not configured"))
  end.

(** *** [asyncio.gather]

    The tasks run concurrently; [delay i] is the time at which task [i]
    completes, and the tasks complete in the order of their delays.  Each
    result is stored in the slot of its task.  [gather] raises the first
    exception raised, in the order of completion, and otherwise returns
    the results in the order of the tasks. *)
Fixpoint insert_by (delay : nat -> nat) (i : nat) (l : list nat) : list nat :=
  match l with
  | [] => [i]
  | j :: l' => if delay i <=? delay j then i :: l else j :: insert_by delay i l'
  end.

Definition completion_order (delay : nat -> nat) (n : nat) : list nat :=
  foldr (insert_by delay) [] (seq 0 n).

Record gather_state := mkGather {
  slots : list (option str);
  first_exception : option exn
}.

Definition complete (tasks : list (M str)) (i : nat) (g : gather_state)
    : M gather_state :=
  match tasks !! i with
  | None => ret g
  | Some task => fun w =>
      match task w with
      | (inr result, w') =>
          (inr (mkGather (<[i := Some result]> (slots g)) (first_exception g)), w')
      | (inl e, w') =>
          (inr (mkGather (slots g)
                  (match first_exception g with
                   | None => Some e
                   | Some e0 => Some e0
                   end)), w')
      end
  end.

Fixpoint complete_all (tasks : list (M str)) (order : list nat)
    (g : gather_state) : M gather_state :=
  match order with
  | [] => ret g
  | i :: rest => g' ← complete tasks i g; complete_all tasks rest g'
  end.

Definition gather (delay : nat -> nat) (tasks : list (M str)) : M (list str) :=
  g ← complete_all tasks (completion_order delay (length tasks))
        (mkGather (replicate (length tasks) None) None);
  match first_exception g with
  | Some e => raise e
  | None => ret (default [] <$> slots g)
  end.

(** [responses[i]] *)
Definition item (responses : list str) (i : nat) : M str :=
  match responses !! i with
  | Some r => ret r
  | None => raise (OtherException (lit "IndexError") (lit "list index out of range"))
  end.

(** The three concurrent calls and the labelled responses (lines 298-312
    of [ask_question], lines 373-388 of [web_ask_question]). *)
Definition fan_out (delay : nat -> nat) (model1 model2 model3 : str)
    (question system_message : str) : M (gmap string str) :=
  let tasks := [
    call_cerebras_model model1 question system_message;
    call_cerebras_model model2 question system_message;
    call_cerebras_model model3 question system_message ] in
  responses ← gather delay tasks;
  r0 ← item responses 0;
  r1 ← item responses 1;
  r2 ← item responses 2;
  ret (<["MODEL1" := r0]> (<["MODEL2" := r1]> (<["MODEL3" := r2]> ∅))).

(** The two [except] clauses shared by the endpoints: what an exception
    raised in the [try] block leaves the endpoint as. *)
Definition surface (e : exn) : exn :=
  match e with
  | HTTPException _ _ => e
  | OtherException type_name message =>
      let error_msg :=
        if falsy message then lit "Unknown error of type " ++ type_name
        else message in
      HTTPException 500 (lit "Error processing request: " ++ error_msg)
  end.

Definition reraise {A} (e : exn) : M A := raise (surface e).

(** [MODEL1], [MODEL2] and [MODEL3], when [all([model1, model2, model3])]
    holds: each is set and not empty. *)
Definition models_configured : option (str * str * str) :=
  match getenv "MODEL1", getenv "MODEL2", getenv "MODEL3" with
  | Some ((_ :: _) as m1), Some ((_ :: _) as m2), Some ((_ :: _) as m3) =>
      Some (m1, m2, m3)
  | _, _, _ => None
  end.

(** [ModelResponse(input=..., models=..., judge=...)].  The class
    declares [models: Dict[str, str] = None]: the default is not
    validated, but a value passed for the field is, and pydantic 2 takes
    no [None] for a dictionary (pydantic 1 read such a field as
    optional). *)
Definition ModelResponse_new (input : str) (models : option (gmap string str))
    (judge : JudgeResult) : M ModelResponse :=
  match models with
  | Some _ => ret (mkModelResponse input models judge)
  | None => raise (OtherException (lit "ValidationError") validation_error)
  end.

(** The handler of [POST /ask]: what runs after the API key has been
    verified. *)
Definition ask_question (delay : nat -> nat) (question system_message : str)
    : M ModelResponse :=
  match models_configured with
  | None => raise (HTTPException 500 (lit "Models not properly configured"))
  | Some (model1, model2, model3) =>
      try_except
        (model_responses ← fan_out delay model1 model2 model3 question system_message;
         judge_result ← process_with_judge question model_responses;
         let show_model_output :=
           str_eqb (lower (getenv_or "SHOW_MODEL_OUTPUT" (lit "false"))) (lit "true") in
         ModelResponse_new question
           (if show_model_output then Some model_responses else None)
           judge_result)
        reraise
  end.

(** [POST /web-ask] *)
Definition web_ask_question (delay : nat -> nat) (question csrf_token : str)
    : M WebResponse :=
  if negb (validate_csrf_token csrf_token) then
    raise (HTTPException 403 (lit "Invalid or expired CSRF token"))
  else
    try_except
      (match models_configured with
       | None => raise (HTTPException 500 (lit "Models not properly configured"))
       | Some (model1, model2, model3) =>
           model_responses ← fan_out delay model1 model2 model3 question [];
           judge_result ← process_with_judge question model_responses;
           let final_response := jr_final_answer judge_result in
           ret (mkWebResponse final_response)
       end)
      reraise.

(** *** What a call returns and sends

    A call does not look at the requests sent before it. *)
Definition call_result (model user_input system_message : str) : exn + str :=
  fst (call_cerebras_model model user_input system_message []).

Definition call_sent (model user_input system_message : str)
    : list (Request Num) :=
  snd (call_cerebras_model model user_input system_message []).

(** The outcome of each task of a [gather]: what it returns or raises,
    and the requests it sends. *)
Local Abbreviation outcome := ((exn + str) * list (Request Num))%type.

Definition has_outcome (task : M str) (o : outcome) : Prop :=
  forall w, task w = (o.1, w ++ o.2).

(** The exception [gather] raises: that of the first task, in the order
    of completion, that raised one. *)
Fixpoint first_failure (outcomes : list outcome) (order : list nat) : option exn :=
  match order with
  | [] => None
  | i :: rest =>
      match outcomes !! i with
      | Some (inl e, _) => Some e
      | _ => first_failure outcomes rest
      end
  end.

(** The requests sent by the tasks, in the order of completion. *)
Definition trace (outcomes : list outcome) (order : list nat)
    : list (Request Num) :=
  flat_map (fun i => match outcomes !! i with
                     | Some (_, sent) => sent
                     | None => []
                     end) order.

(** One completion, on the state of [gather], without the world. *)
Definition settle (outcomes : list outcome) (g : gather_state) (i : nat)
    : gather_state :=
  match outcomes !! i with
  | None => g
  | Some (inr result, _) =>
      mkGather (<[i := Some result]> (slots g)) (first_exception g)
  | Some (inl e, _) =>
      mkGather (slots g)
        (match first_exception g with
         | None => Some e
         | Some e0 => Some e0
         end)
  end.

End WithProvider.

End Service.

(** ** A configuration to run the service on *)

Module Scenario.

Import Service.

Definition environ : gmap string str :=
  list_to_map [("MODEL1", lit "alpha"); ("MODEL2", lit "beta");
               ("MODEL3", lit "gamma"); ("JUDGE", lit "judge")].

(** Every number reads as 0: the parameters play no part here. *)
Definition parse (s : str) : str + nat := inr 0.

Definition judge_text : str :=
  lit "FINAL_ANSWER: Hello" ++ nl :: lit "REASONING: all three agree".

(** A provider that answers every request: a backend with its own name,
    the judge with [judge_text]. *)
Definition answers (r : Request nat) : str + str :=
  if str_eqb (req_model r) (lit "judge") then inr judge_text
  else inr (lit "answer of " ++ req_model r).

(** A provider whose backend [beta] is down. *)
Definition beta_down (r : Request nat) : str + str :=
  if str_eqb (req_model r) (lit "beta") then inl (lit "connection refused")
  else answers r.

Definition no_stream (r : Request nat) : str + list (option str) := inr [].

Definition valid (token : str) : bool := true.

Definition refused : str := lit "models: Input should be a valid dictionary".

(** The third backend completes first, the first one last. *)
Definition delays (i : nat) : nat := 3 - i.

End Scenario.

(** ** The API key ([verify_api_key], lines 61-67) *)

Module Access.

Import Service.

(** The dependency of [POST /ask]: it returns the key of the header
    [code-x-key], or raises. *)
Definition verify_api_key (environ : gmap string str) (code_x_key : str)
    : exn + str :=
  match environ !! "CODE_X_KEY" with
  | Some ((_ :: _) as expected_key) =>
      if negb (str_eqb code_x_key expected_key)
      then inl (HTTPException 401 (lit "Invalid API key"))
      else inr code_x_key
  | _ => inl (HTTPException 500 (lit "API key not configured"))
  end.

(** [POST /ask] for a request that carries the header and a body with a
    question and a system message: FastAPI resolves the dependency, and
    calls the handler when the dependency returns. *)
Definition post_ask {Num : Type} (parse_int parse_float : str -> str + Num)
    (environ : gmap string str)
    (create_completion : Request Num -> str + str)
    (create_stream : Request Num -> str + list (option str))
    (validation_error : str) (delay : nat -> nat)
    (code_x_key question system_message : str) : M Num ModelResponse :=
  fun w =>
    match verify_api_key environ code_x_key with
    | inl e => (inl e, w)
    | inr api_key =>
        ask_question Num parse_int parse_float environ create_completion
          create_stream validation_error delay question system_message w
    end.

End Access.

(** ** More configurations to run the service on *)

Module Settings.

Import Service Scenario.

(** Streaming on, the model outputs shown, an API key. *)
Definition streaming : gmap string str :=
  <["STREAM" := lit "True"]> (<["SHOW_MODEL_OUTPUT" := lit "TRUE"]>
    (<["CODE_X_KEY" := lit "s3cret"]> environ)).

(** No judge. *)
Definition judgeless : gmap string str := delete "JUDGE" environ.

(** The second model name is empty. *)
Definition incomplete : gmap string str := <["MODEL2" := []]> environ.

(** A stream of three fragments with content and two without. *)
Definition fragments (r : Request nat) : str + list (option str) :=
  inr [Some (lit "FINAL_ANSWER: "); None; Some (lit "streamed"); Some [];
       Some (lit " answer")].

Definition invalid (token : str) : bool := false.

End Settings.

(** ** Shapes of texts, for the further properties *)

Module Shape.

Import Judge.

(** The fields the scan builds hold no newline. *)
Definition flat (st : scan_state) : Prop :=
  forallb Re.not_nl (final_answer st) = true
  /\ forallb Re.not_nl (reasoning st) = true.

(** A matcher that does not look at [bol]: its pattern has no [^]. *)
Definition unanchored (m : Re.matcher) : Prop :=
  forall b1 b2 s, m b1 s = m b2 s.

(** A matcher that can match only where the text starts with [p]. *)
Definition starts_with (p : str) (m : Re.matcher) : Prop :=
  forall b s, startswith p s = false -> m b s = None.

Definition star_free (s : str) : bool :=
  forallb (fun c => negb (ch_eqb "*"%char c)) s.

(** An exception that leaves an endpoint with status 500. *)
Definition status_500 (e : Service.exn) : Prop :=
  match e with
  | Service.HTTPException code _ => code = 500
  | Service.OtherException _ _ => True
  end.

(** The character [h] is not in [x]. *)
Definition lacks (h : ascii) (x : str) : bool :=
  forallb (fun c => negb (ch_eqb h c)) x.

(** The elements the normaliser makes. *)
Definition par (l : str) : str := lit "<p>" ++ l ++ lit "</p>".
Definition li (l : str) : str := lit "<li>" ++ l ++ lit "</li>".
Definition ul (body : str) : str :=
  lit "<ul class=" ++ dquote :: lit "list-unstyled" ++ dquote :: lit ">" ++
  nl :: body ++ lit "</ul>".

(** Plain words: at least one character, none of them an asterisk, a
    [<] or a newline, and no white space at either end. *)
Definition plain_char (c : ascii) : bool :=
  negb (ch_eqb "*"%char c) && negb (ch_eqb "<"%char c) && negb (ch_eqb nl c).

Definition words (l : str) : bool :=
  negb (falsy l) && forallb plain_char l
  && bool_decide (lstrip l = l) && bool_decide (rstrip l = l).

(** A line of plain words that is no header, rule, list item or quote. *)
Definition paragraph_line (l : str) : bool :=
  words l && negb (startswith (lit "#") l) && negb (startswith (lit "---") l)
  && negb (startswith (lit "- ") l) && negb (Re.match_numbered l)
  && negb (startswith (lit "> ") l).

(** The start of a list line: a dash, or a number with its dot; then a
    space. *)
Inductive marker := Dash | Number (digits : str).

Definition marker_text (m : marker) : str :=
  match m with
  | Dash => lit "- "
  | Number digits => digits ++ lit ". "
  end.

Definition marker_ok (m : marker) : bool :=
  match m with
  | Dash => true
  | Number digits => negb (falsy digits) && forallb is_digit digits
  end.

Definition list_line (mi : marker * str) : str := marker_text mi.1 ++ mi.2.

Definition list_line_ok (mi : marker * str) : bool :=
  marker_ok mi.1 && words mi.2.

(** [k] break markers, each with the newline after it. *)
Fixpoint breaks (k : nat) : str :=
  match k with
  | O => []
  | S k => lit "<br>" ++ nl :: breaks k
  end.

(** A quote line and the element step 5 makes of it. *)
Definition quote_line (l : str) : str := lit "> " ++ l.

Definition quote (l : str) : str :=
  lit "<blockquote class=" ++ dquote :: lit "blockquote" ++ dquote ::
  lit "><p>" ++ l ++ lit "</p></blockquote>".

(** The opening tag of a quote, after its [<]. *)
Definition quote_open : str :=
  lit "blockquote class=" ++ dquote :: lit "blockquote" ++ dquote :: lit ">".




End Shape.

(** * Properties *)

(** ** Python strings *)

Module PyFacts.

Lemma ch_eqb_eq a b : ch_eqb a b = true <-> a = b.
Proof. unfold ch_eqb. apply Ascii.eqb_eq. Qed.

Lemma ch_eqb_refl a : ch_eqb a a = true.
Proof. apply ch_eqb_eq. reflexivity. Qed.

Lemma startswith_take p s : startswith p s = true <-> take (length p) s = p.
Proof.
  revert s. induction p as [|a p IH]; intros [|b s]; simpl; try easy.
  rewrite andb_true_iff, ch_eqb_eq, IH. split.
  - intros [-> ->]. reflexivity.
  - intros H. injection H as -> ->. auto.
Qed.

Lemma startswith_app p s : startswith p (p ++ s) = true.
Proof. apply startswith_take. apply take_app_length. Qed.

Lemma startswith_false_head a p b s :
  a <> b -> startswith (a :: p) (b :: s) = false.
Proof.
  intros Hne. simpl. destruct (ch_eqb a b) eqn:E; [|reflexivity].
  apply ch_eqb_eq in E. contradiction.
Qed.

Lemma startswith_long p a b :
  length p <= length a -> startswith p (a ++ b) = startswith p a.
Proof.
  intros Hlen. apply eq_true_iff_eq.
  rewrite !startswith_take, take_app_le by assumption. reflexivity.
Qed.

(** *** [drop_while] and [strip] *)

Lemma drop_while_all p ws s :
  forallb p ws = true -> drop_while p (ws ++ s) = drop_while p s.
Proof.
  induction ws as [|c ws IH]; simpl; [reflexivity|].
  destruct (p c); simpl; [exact IH | discriminate].
Qed.

Lemma drop_while_nil p s : drop_while p s = [] <-> forallb p s = true.
Proof.
  induction s as [|c s IH]; simpl; [easy|].
  destruct (p c); simpl; [exact IH | easy].
Qed.

Lemma drop_while_head p s c r : drop_while p s = c :: r -> p c = false.
Proof.
  induction s as [|d s IH]; simpl; [discriminate|].
  destruct (p d) eqn:E; [exact IH|]. intros H. injection H as <- _. exact E.
Qed.

Lemma drop_while_fix p s c : p c = false -> drop_while p (c :: s) = c :: s.
Proof. intros H. simpl. rewrite H. reflexivity. Qed.

Lemma drop_while_idemp p s : drop_while p (drop_while p s) = drop_while p s.
Proof.
  destruct (drop_while p s) as [|c r] eqn:E; [reflexivity|].
  apply drop_while_fix. eapply drop_while_head, E.
Qed.

Lemma drop_while_app_keep p s t :
  drop_while p s <> [] -> drop_while p (s ++ t) = drop_while p s ++ t.
Proof.
  induction s as [|c s IH]; simpl; [congruence|].
  destruct (p c); [exact IH | reflexivity].
Qed.

Lemma forallb_rev (p : ascii -> bool) s : forallb p (rev s) = forallb p s.
Proof.
  induction s as [|c s IH]; simpl; [reflexivity|].
  rewrite forallb_app, IH. simpl. rewrite andb_true_r. apply andb_comm.
Qed.

Lemma rstrip_nil s : rstrip s = [] <-> forallb is_space s = true.
Proof.
  unfold rstrip. rewrite <- (forallb_rev _ s), <- drop_while_nil.
  split; intros H.
  - apply (f_equal (@rev ascii)) in H. rewrite rev_involutive in H. exact H.
  - rewrite H. reflexivity.
Qed.


(** A string whose first character is no white space keeps it, and
    stays non-empty, under [rstrip]. *)
Lemma rstrip_cons c r :
  is_space c = false -> exists r', rstrip (c :: r) = c :: r'.
Proof.
  intros Hc. unfold rstrip. simpl.
  destruct (drop_while is_space (rev r)) as [|d t] eqn:E.
  - exists []. apply drop_while_nil in E.
    rewrite drop_while_all by exact E. simpl. rewrite Hc. reflexivity.
  - rewrite drop_while_app_keep by (rewrite E; discriminate).
    rewrite rev_app_distr. simpl. eauto.
Qed.

Lemma rstrip_idemp s : rstrip (rstrip s) = rstrip s.
Proof.
  unfold rstrip. rewrite rev_involutive, drop_while_idemp. reflexivity.
Qed.

Lemma strip_nil s : strip s = [] <-> forallb is_space s = true.
Proof.
  unfold strip, lstrip. split.
  - intros H. destruct (drop_while is_space s) as [|c r] eqn:E.
    + apply drop_while_nil, E.
    + destruct (rstrip_cons c r) as [r' Hr]; [eapply drop_while_head, E|].
      congruence.
  - intros H. apply drop_while_nil in H. rewrite H. reflexivity.
Qed.

Lemma strip_idemp s : strip (strip s) = strip s.
Proof.
  unfold strip, lstrip. destruct (drop_while is_space s) as [|c r] eqn:E.
  - reflexivity.
  - pose proof (drop_while_head _ _ _ _ E) as Hc.
    destruct (rstrip_cons c r Hc) as [r' Hr]. rewrite Hr.
    rewrite drop_while_fix by exact Hc. rewrite <- Hr. apply rstrip_idemp.
Qed.



(** A string that neither starts nor ends with white space is its own
    [strip]. *)
Lemma strip_fix s :
  lstrip s = s -> rstrip s = s -> strip s = s.
Proof. unfold strip. intros -> ->. reflexivity. Qed.

Lemma strip_head s c r : strip s = c :: r -> is_space c = false.
Proof.
  unfold strip, lstrip. destruct (drop_while is_space s) as [|d t] eqn:E.
  - discriminate.
  - pose proof (drop_while_head _ _ _ _ E) as Hd.
    destruct (rstrip_cons d t Hd) as [r' Hr]. rewrite Hr.
    intros H. injection H as <- _. exact Hd.
Qed.

(** *** [replace] *)

Lemma replace_from_skip old new x a :
  replace_from old new (length x) (x ++ a) = replace_from old new 0 a.
Proof. induction x as [|c x IH]; simpl; [destruct a|]; auto. Qed.

Lemma replace_prefix old new a :
  old <> [] -> replace old new (old ++ a) = new ++ replace old new a.
Proof.
  destruct old as [|c o]; [congruence|]. intros _. unfold replace.
  change ((c :: o) ++ a) with (c :: (o ++ a)).
  cbn [replace_from]. change (c :: o ++ a) with ((c :: o) ++ a).
  rewrite startswith_app. cbn [length]. rewrite Nat.sub_succ, Nat.sub_0_r.
  rewrite replace_from_skip. reflexivity.
Qed.

Lemma unbordered_spec m a :
  unbordered m = true -> a <> [] -> length a < length m ->
  m <> a ++ take (length m - length a) m.
Proof.
  intros Hu Ha Hlen Heq. unfold unbordered in Hu.
  rewrite forallb_forall in Hu.
  assert (Hin : In (length a) (seq 1 (length m - 1))).
  { apply in_seq. destruct a; [congruence|]. simpl in *. lia. }
  specialize (Hu _ Hin). apply negb_true_iff, bool_decide_eq_false in Hu.
  apply Hu. rewrite Heq at 1. rewrite drop_app_length. reflexivity.
Qed.

(** An occurrence of [old] that starts inside [a] in [a ++ old ++ b]
    lies inside [a], when [old] is unbordered. *)
Lemma startswith_junction old a b :
  unbordered old = true -> a <> [] ->
  startswith old (a ++ old ++ b) = true -> startswith old a = true.
Proof.
  intros Hu Ha H. destruct (le_lt_dec (length old) (length a)) as [Hle|Hlt].
  - rewrite startswith_long in H by exact Hle. exact H.
  - exfalso. apply startswith_take in H.
    rewrite take_app_ge in H by lia.
    rewrite take_app_le in H by lia.
    eapply unbordered_spec; eauto.
Qed.

Lemma replace_occurrence old new a b :
  unbordered old = true -> old <> [] -> contains old a = false ->
  replace old new (a ++ old ++ b) = a ++ new ++ replace old new b.
Proof.
  intros Hu Hold. induction a as [|c a IH]; intros Hc.
  - rewrite !app_nil_l. apply replace_prefix, Hold.
  - simpl in Hc. apply orb_false_iff in Hc as [Hs Hc].
    specialize (IH Hc). destruct old as [|o old']; [congruence|].
    unfold replace in *. change ((c :: a) ++ ?x) with (c :: (a ++ x)).
    cbn [replace_from].
    destruct (startswith (o :: old') (c :: a ++ (o :: old') ++ b)) eqn:E.
    + change (c :: a ++ ?x) with ((c :: a) ++ x) in E.
      apply startswith_junction in E; [|exact Hu|discriminate].
      simpl in E, Hs. congruence.
    + rewrite IH. reflexivity.
Qed.

End PyFacts.

(** ** The judge parser *)

Module JudgeFacts.

Import Judge PyFacts.

Lemma replace_absent old new s :
  old <> [] -> contains old s = false -> replace old new s = s.
Proof.
  destruct old as [|o old']; [congruence|]. intros _. unfold replace.
  induction s as [|c s IH]; intros Hc; [reflexivity|].
  simpl in Hc. apply orb_false_iff in Hc as [Hs Hc].
  cbn [replace_from]. simpl startswith. rewrite Hs, IH by exact Hc.
  reflexivity.
Qed.

Lemma replace_pieces old new pieces :
  unbordered old = true -> old <> [] ->
  Forall (fun p => contains old p = false) pieces ->
  replace old new (join_with old pieces) = join_with new pieces.
Proof.
  intros Hu Hold. induction 1 as [|p ps Hp Hps IH]; simpl.
  - destruct old; [congruence|reflexivity].
  - destruct ps as [|q ps].
    + apply replace_absent; assumption.
    + rewrite replace_occurrence by assumption. rewrite IH. reflexivity.
Qed.

Lemma join_with_nil pieces : join_with [] pieces = concat pieces.
Proof.
  induction pieces as [|p ps IH]; simpl; [reflexivity|].
  destruct ps as [|q ps]; [simpl; rewrite app_nil_r; reflexivity|].
  rewrite IH. reflexivity.
Qed.

Lemma final_answer_line st a :
  scan_line st (FINAL_ANSWER ++ a)
  = ScanState (strip (replace FINAL_ANSWER [] a)) (reasoning st) InFinalAnswer.
Proof.
  unfold scan_line. rewrite startswith_app.
  rewrite replace_prefix by discriminate. reflexivity.
Qed.

Lemma reasoning_line st r :
  scan_line st (REASONING ++ r)
  = ScanState (final_answer st) (strip (replace REASONING [] r)) InReasoning.
Proof.
  unfold scan_line. rewrite startswith_app.
  rewrite replace_prefix by discriminate. reflexivity.
Qed.

Lemma other_line st line :
  is_marker_line line = false ->
  scan_line st line =
    match current_section st with
    | NoSection => st
    | InFinalAnswer =>
        ScanState (final_answer st ++ lit " " ++ strip line) (reasoning st)
                  InFinalAnswer
    | InReasoning =>
        ScanState (final_answer st) (reasoning st ++ lit " " ++ strip line)
                  InReasoning
    end.
Proof.
  unfold is_marker_line, scan_line. intros H.
  apply orb_false_iff in H as [-> ->]. reflexivity.
Qed.

Lemma other_lines st lines :
  Forall (fun l => is_marker_line l = false) lines ->
  scan_lines st lines =
    match current_section st with
    | NoSection => st
    | InFinalAnswer =>
        ScanState (final_answer st ++ continuation lines) (reasoning st)
                  InFinalAnswer
    | InReasoning =>
        ScanState (final_answer st) (reasoning st ++ continuation lines)
                  InReasoning
    end.
Proof.
  intros H. revert st. induction H as [|l ls Hl Hls IH]; intros st.
  - destruct st as [f r []]; simpl; rewrite ?app_nil_r; reflexivity.
  - unfold scan_lines in *. cbn [fold_left]. rewrite IH, (other_line _ _ Hl).
    unfold continuation. cbn [map concat].
    destruct st as [f r []]; simpl; rewrite <- ?app_assoc; reflexivity.
Qed.

(** The result when the scan found something. *)
Lemma parse_judge_found raw :
  let st := scan_lines scan_init (split_nl raw) in
  strip (final_answer st) <> [] \/ strip (reasoning st) <> [] ->
  parse_judge raw = mkJudgeResult (strip (final_answer st)) (strip (reasoning st)).
Proof.
  intros st H. unfold parse_judge. fold st.
  destruct (strip (final_answer st)) eqn:Ef; simpl.
  - destruct (strip (reasoning st)) eqn:Er; simpl.
    + destruct H; congruence.
    + rewrite Ef. reflexivity.
  - rewrite Ef. reflexivity.
Qed.

(** The result when the scan found nothing: the fallback. *)
Lemma parse_judge_fallback raw :
  let st := scan_lines scan_init (split_nl raw) in
  strip (final_answer st) = [] -> strip (reasoning st) = [] ->
  parse_judge raw = mkJudgeResult (strip raw) [].
Proof.
  intros st Hf Hr. unfold parse_judge. fold st. rewrite Hf, Hr. simpl.
  destruct (_ || _); rewrite strip_idemp; reflexivity.
Qed.

(** C1: the parser is the line scanner of the specification.  Lines
    before any marker are discarded; a line starting with FINAL_ANSWER:
    starts the final answer with the marker and the surrounding white
    space removed, the lines after it being appended with a space each;
    a line starting with REASONING: does the same for the reasoning; the
    parser returns the two fields trimmed; and the text
    FINAL_ANSWER: Hello / world / REASONING: because X
    gives the final answer Hello world and the reasoning because X. *)
Theorem judge_line_scanner (st : scan_state) (a r : str) (lines : list str) :
  Forall (fun l => is_marker_line l = false) lines ->
  (current_section st = NoSection -> scan_lines st lines = st)
  /\ scan_lines st ((FINAL_ANSWER ++ a) :: lines)
     = ScanState (strip (replace FINAL_ANSWER [] a) ++ continuation lines)
                 (reasoning st) InFinalAnswer
  /\ scan_lines st ((REASONING ++ r) :: lines)
     = ScanState (final_answer st)
                 (strip (replace REASONING [] r) ++ continuation lines)
                 InReasoning
  /\ (forall raw,
        let found := scan_lines scan_init (split_nl raw) in
        strip (final_answer found) <> [] \/ strip (reasoning found) <> [] ->
        parse_judge raw
        = mkJudgeResult (strip (final_answer found)) (strip (reasoning found)))
  /\ parse_judge (lit "FINAL_ANSWER: Hello" ++ nl :: lit "world" ++ nl ::
                  lit "REASONING: because X")
     = mkJudgeResult (lit "Hello world") (lit "because X").
Proof.
  intros H. repeat split.
  - intros Hs. rewrite other_lines, Hs by exact H. reflexivity.
  - unfold scan_lines. cbn [fold_left]. fold (scan_lines (scan_line st (FINAL_ANSWER ++ a)) lines).
    rewrite other_lines, final_answer_line by exact H. reflexivity.
  - unfold scan_lines. cbn [fold_left]. fold (scan_lines (scan_line st (REASONING ++ r)) lines).
    rewrite other_lines, reasoning_line by exact H. reflexivity.
  - apply parse_judge_found.
Qed.

Lemma judge_line_scanner_witness :
  let lines := [lit "world"; lit "  and more "] in
  Forall (fun l => is_marker_line l = false) lines
  /\ scan_lines scan_init ((FINAL_ANSWER ++ lit " Hello") :: lines)
     = ScanState (lit "Hello world and more") [] InFinalAnswer.
Proof.
  intros lines.
  assert (H : Forall (fun l => is_marker_line l = false) lines)
    by (repeat constructor).
  split; [exact H|].
  exact (proj1 (proj2 (judge_line_scanner scan_init (lit " Hello") [] lines H))).
Defined.

(** C2, as amended: when the scan leaves both fields empty up to white
    space, the parser returns the whole judge text, trimmed, as the final
    answer, with an empty reasoning; the parser is a total function; and
    whenever the judge text has a character that is no white space, the
    final answer or the reasoning returned is non-empty. *)
Theorem judge_fallback_result (raw : str) :
  let found := scan_lines scan_init (split_nl raw) in
  (strip (final_answer found) = [] -> strip (reasoning found) = [] ->
   parse_judge raw = mkJudgeResult (strip raw) [])
  /\ (forallb is_space raw = false ->
      jr_final_answer (parse_judge raw) <> []
      \/ jr_reasoning (parse_judge raw) <> []).
Proof.
  intros found. split; [apply parse_judge_fallback|].
  intros Hraw.
  destruct (strip (final_answer found)) as [|c f] eqn:Ef.
  - destruct (strip (reasoning found)) as [|d r] eqn:Er.
    + left. rewrite (parse_judge_fallback raw Ef Er). simpl.
      intros Hs. apply strip_nil in Hs. congruence.
    + right. rewrite parse_judge_found by (right; fold found; congruence).
      simpl. fold found. congruence.
  - left. rewrite parse_judge_found by (left; fold found; congruence).
    simpl. fold found. congruence.
Qed.

Lemma judge_fallback_result_witness :
  let raw := lit "  Just a plain answer. " in
  forallb is_space raw = false
  /\ parse_judge raw = mkJudgeResult (lit "Just a plain answer.") []
  /\ (jr_final_answer (parse_judge raw) <> []
      \/ jr_reasoning (parse_judge raw) <> []).
Proof.
  intros raw. split; [reflexivity|]. split.
  - exact (proj1 (judge_fallback_result raw) eq_refl eq_refl).
  - exact (proj2 (judge_fallback_result raw) eq_refl).
Defined.

(** C2 as stated fails: a judge text with a reasoning section only is
    not empty, and the final answer returned for it is empty. *)
Lemma judge_final_answer_can_be_empty :
  ~ (lit "REASONING: because X" <> [] ->
     jr_final_answer (parse_judge (lit "REASONING: because X")) <> []).
Proof. intros H. apply H; [discriminate | reflexivity]. Qed.

(** C9: on a marker line every occurrence of the marker is removed, the
    leading one and those inside the line.  A line made of the marker
    and of pieces free of it, with the marker between the pieces, is
    stored as the pieces put together and trimmed. *)
Theorem judge_marker_removed_everywhere (st : scan_state) (fs rs : list str) :
  Forall (fun p => contains FINAL_ANSWER p = false) fs ->
  Forall (fun p => contains REASONING p = false) rs ->
  final_answer (scan_line st (FINAL_ANSWER ++ join_with FINAL_ANSWER fs))
  = strip (concat fs)
  /\ reasoning (scan_line st (REASONING ++ join_with REASONING rs))
     = strip (concat rs).
Proof.
  intros Hf Hr. rewrite final_answer_line, reasoning_line.
  cbn [final_answer reasoning].
  rewrite !replace_pieces, !join_with_nil by (assumption || reflexivity || discriminate).
  split; reflexivity.
Qed.

Lemma judge_marker_removed_everywhere_witness :
  let fs := [lit " see "; lit " below"] in
  let rs := [lit " a"; lit "b"; lit "c "] in
  Forall (fun p => contains FINAL_ANSWER p = false) fs
  /\ Forall (fun p => contains REASONING p = false) rs
  /\ final_answer (scan_line scan_init (lit "FINAL_ANSWER: see FINAL_ANSWER: below"))
     = lit "see  below"
  /\ reasoning (scan_line scan_init (lit "REASONING: aREASONING:bREASONING:c "))
     = lit "abc".
Proof.
  intros fs rs.
  assert (Hf : Forall (fun p => contains FINAL_ANSWER p = false) fs)
    by (repeat constructor).
  assert (Hr : Forall (fun p => contains REASONING p = false) rs)
    by (repeat constructor).
  split; [exact Hf|]. split; [exact Hr|].
  exact (judge_marker_removed_everywhere scan_init fs rs Hf Hr).
Defined.

End JudgeFacts.

(** ** Substitution, line by line *)

Module ReFacts.

Import Re PyFacts.

Lemma take_drop_while p s : take_while p s ++ drop_while p s = s.
Proof.
  induction s as [|c s IH]; simpl; [reflexivity|].
  destruct (p c); simpl; [rewrite IH|]; reflexivity.
Qed.

Lemma drop_take_while p s : drop (length (take_while p s)) s = drop_while p s.
Proof.
  induction s as [|c s IH]; simpl; [reflexivity|].
  destruct (p c); simpl; [exact IH | reflexivity].
Qed.

Lemma forallb_suffix (q : ascii -> bool) a b :
  forallb q (a ++ b) = true -> forallb q b = true.
Proof. rewrite forallb_app. intros H. apply andb_true_iff in H. tauto. Qed.

Lemma forallb_drop (q : ascii -> bool) k s :
  forallb q s = true -> forallb q (drop k s) = true.
Proof.
  intros H. rewrite <- (take_drop k s) in H. eapply forallb_suffix, H.
Qed.

Lemma forallb_drop_while (q p : ascii -> bool) s :
  forallb q s = true -> forallb q (drop_while p s) = true.
Proof.
  intros H. rewrite <- (take_drop_while p s) in H. eapply forallb_suffix, H.
Qed.

Lemma length_take_while p s : length (take_while p s) <= length s.
Proof.
  induction s as [|c s IH]; simpl; [lia|]. destruct (p c); simpl; lia.
Qed.

Lemma take_while_all p s : forallb p s = true -> take_while p s = s.
Proof.
  induction s as [|c s IH]; simpl; [reflexivity|].
  destruct (p c); simpl; [intros H; rewrite IH by exact H; reflexivity|discriminate].
Qed.

Lemma take_while_app_keep p s t :
  drop_while p s <> [] -> take_while p (s ++ t) = take_while p s.
Proof.
  induction s as [|c s IH]; simpl; [congruence|].
  destruct (p c); [intros H; rewrite IH by exact H|]; reflexivity.
Qed.

Lemma take_while_line_end p s rest :
  p nl = false -> line_end rest -> take_while p (s ++ rest) = take_while p s.
Proof.
  intros Hp [->|[r ->]]; [rewrite app_nil_r; reflexivity|].
  induction s as [|c s IH]; simpl; [rewrite Hp; reflexivity|].
  destruct (p c); [rewrite IH|]; reflexivity.
Qed.

Lemma take_while_line s rest :
  forallb not_nl s = true -> line_end rest ->
  take_while not_nl (s ++ rest) = s.
Proof.
  intros Hs Hr. rewrite take_while_line_end by (assumption || reflexivity).
  apply take_while_all, Hs.
Qed.

Lemma startswith_line_end p s rest :
  ~ In nl p -> line_end rest -> startswith p (s ++ rest) = startswith p s.
Proof.
  intros Hp [->|[r ->]]; [rewrite app_nil_r; reflexivity|].
  revert s. induction p as [|a p IH]; intros s; [reflexivity|].
  destruct s as [|b s]; simpl.
  - destruct (ch_eqb a nl) eqn:E; [|reflexivity].
    apply ch_eqb_eq in E. subst. exfalso. apply Hp. left. reflexivity.
  - rewrite IH; [reflexivity|]. intros H. apply Hp. right. exact H.
Qed.

Lemma startswith_length p s : startswith p s = true -> length p <= length s.
Proof.
  intros H. apply startswith_take in H. rewrite <- H at 1.
  rewrite length_take. lia.
Qed.

(** The repetition never runs out of fuel: every round takes at least
    one character, so the length of the text is fuel enough. *)
Lemma li_item_positive s n : li_item s = Some n -> 1 <= n.
Proof.
  unfold li_item. destruct (startswith _ s); [|discriminate].
  destruct (find_lazy _ _ _) as [k|]; [|discriminate].
  destruct (startswith _ _); intros H; injection H as <-; lia.
Qed.

Lemma li_rounds_fuel fuel1 fuel2 s :
  length s <= fuel1 -> length s <= fuel2 ->
  li_rounds fuel1 s = li_rounds fuel2 s.
Proof.
  revert fuel2 s. induction fuel1 as [|f1 IH]; intros fuel2 s H1 H2.
  - destruct s; [|simpl in H1; lia]. destruct fuel2; reflexivity.
  - destruct fuel2 as [|f2].
    + destruct s; [reflexivity|simpl in H2; lia].
    + cbn [li_rounds]. destruct (li_item s) as [n|] eqn:E; [|reflexivity].
      apply li_item_positive in E. f_equal.
      destruct s as [|c s]; [destruct n; [lia|]; cbn [drop]; destruct f1, f2; reflexivity|].
      simpl in H1, H2. apply IH; rewrite length_drop; simpl; lia.
Qed.

Section Anchored.

(** A pattern that starts with [^]. *)
Variable m : matcher.
Hypothesis anchored : forall s, m false s = None.

Lemma sub_from_copy x rest :
  forallb not_nl x = true ->
  sub_from m false 0 (x ++ rest) = x ++ sub_from m false 0 rest.
Proof using anchored.
  induction x as [|c x IH]; [reflexivity|]. simpl. intros H.
  apply andb_true_iff in H as [Hc Hx]. rewrite anchored.
  unfold not_nl in Hc. apply negb_true_iff in Hc. rewrite Hc, IH by exact Hx.
  reflexivity.
Qed.

Lemma sub_from_skip x rest bol :
  forallb not_nl x = true -> x <> [] ->
  sub_from m bol (length x) (x ++ rest) = sub_from m false 0 rest.
Proof using Type.
  revert bol. induction x as [|c x IH]; intros bol H Hne; [congruence|].
  simpl in H. apply andb_true_iff in H as [Hc Hx].
  unfold not_nl in Hc. apply negb_true_iff in Hc.
  cbn [length app sub_from]. rewrite Hc.
  destruct x as [|d x]; [reflexivity|]. apply IH; [exact Hx|discriminate].
Qed.

Lemma sub_from_newline rest :
  sub_from m false 0 (nl :: rest) = nl :: sub_from m true 0 rest.
Proof using anchored. simpl. rewrite anchored. reflexivity. Qed.

Lemma sub_from_line f l rest :
  forallb not_nl l = true -> local_on m f l -> line_end rest ->
  sub_from m true 0 (l ++ rest) = f l ++ sub_from m false 0 rest.
Proof using anchored.
  intros Hl Hloc Hrest. specialize (Hloc rest Hrest).
  destruct l as [|c l].
  - simpl in *. destruct rest as [|d rest].
    + destruct (m true []) as [[n r]|]; [simpl in Hloc; lia|].
      rewrite Hloc. reflexivity.
    + cbn [sub_from]. destruct (m true (d :: rest)) as [[n r]|].
      * simpl in Hloc. lia.
      * rewrite Hloc. simpl. rewrite anchored.
        destruct Hrest as [?|[r ?]]; congruence.
  - simpl in Hl. apply andb_true_iff in Hl as [Hc Hl].
    pose proof Hc as Hc'. unfold not_nl in Hc'. apply negb_true_iff in Hc'.
    change ((c :: l) ++ rest) with (c :: (l ++ rest)) in *.
    cbn [sub_from]. destruct (m true (c :: l ++ rest)) as [[n r]|].
    + destruct Hloc as (Hn1 & Hn2 & ->). rewrite Hc'.
      destruct n as [|n]; [lia|]. cbn [drop]. simpl in Hn2.
      rewrite Nat.sub_succ, Nat.sub_0_r, <- app_assoc. f_equal.
      rewrite <- (take_drop n l) at 1. rewrite <- app_assoc.
      destruct n as [|n].
      * simpl. apply sub_from_copy, Hl.
      * assert (Hlen : length (take (S n) l) = S n)
          by (rewrite length_take; lia).
        rewrite <- Hlen at 1. rewrite sub_from_skip.
        -- apply sub_from_copy. rewrite <- (take_drop (S n) l) in Hl.
           rewrite forallb_app in Hl. apply andb_true_iff in Hl. tauto.
        -- rewrite <- (take_drop (S n) l) in Hl.
           rewrite forallb_app in Hl. apply andb_true_iff in Hl. tauto.
        -- intros E. rewrite E in Hlen. discriminate.
    + rewrite Hloc, Hc'. simpl. f_equal. apply sub_from_copy, Hl.
Qed.

(** On a text whose lines the pattern treats one by one, the
    substitution is a map over the lines. *)
Lemma sub_lines f lines :
  Forall (fun l => forallb not_nl l = true /\ local_on m f l) lines ->
  sub m (join_nl lines) = join_nl (map f lines).
Proof using anchored.
  unfold sub. induction 1 as [|l ls [Hl Hloc] Hls IH]; [reflexivity|].
  destruct ls as [|l2 ls].
  - simpl. rewrite <- (app_nil_r l) at 1.
    rewrite (sub_from_line f) by (auto; left; reflexivity).
    simpl. apply app_nil_r.
  - change (join_nl (l :: l2 :: ls)) with (l ++ nl :: join_nl (l2 :: ls)).
    change (map f (l :: l2 :: ls)) with (f l :: map f (l2 :: ls)).
    change (join_nl (f l :: map f (l2 :: ls)))
      with (f l ++ nl :: join_nl (map f (l2 :: ls))).
    rewrite (sub_from_line f) by (auto; right; eauto).
    rewrite sub_from_newline, IH. reflexivity.
Qed.

End Anchored.

(** *** Patterns confined to a line *)

Lemma find_lazy_bound close dotall s k :
  find_lazy close dotall s = Some k -> k + length close <= length s.
Proof.
  revert k. induction s as [|c s IH]; intros k; cbn [find_lazy].
  - destruct (startswith close []) eqn:E; [|discriminate].
    intros H. injection H as <-. apply startswith_length in E. simpl in *. lia.
  - destruct (startswith close (c :: s)) eqn:E.
    + intros H. injection H as <-. apply startswith_length in E. simpl in *. lia.
    + destruct (negb dotall && ch_eqb c nl); [discriminate|].
      destruct (find_lazy close dotall s) as [k'|]; [|discriminate].
      intros H. injection H as <-. specialize (IH _ eq_refl). simpl. lia.
Qed.

Lemma find_lazy_line close x rest :
  close <> [] -> ~ In nl close -> forallb not_nl x = true ->
  find_lazy close false (x ++ nl :: rest) = find_lazy close false x.
Proof.
  intros Hne Hnl. induction x as [|c x IH]; intros Hx.
  - cbn [app find_lazy]. destruct close as [|a close]; [congruence|].
    cbn [startswith]. destruct (ch_eqb a nl) eqn:E.
    + apply ch_eqb_eq in E. subst. exfalso. apply Hnl. left. reflexivity.
    + reflexivity.
  - simpl in Hx. apply andb_true_iff in Hx as [Hc Hx].
    change ((c :: x) ++ nl :: rest) with (c :: (x ++ nl :: rest)).
    cbn [find_lazy]. rewrite IH by exact Hx.
    change (c :: x ++ nl :: rest) with ((c :: x) ++ nl :: rest).
    rewrite startswith_line_end by (assumption || (right; eauto)).
    reflexivity.
Qed.

Lemma forallb_take (q : ascii -> bool) k s :
  forallb q s = true -> forallb q (take k s) = true.
Proof.
  intros H. rewrite <- (take_drop k s) in H. rewrite forallb_app in H.
  apply andb_true_iff in H. tauto.
Qed.

Lemma delimited_confined d open close :
  d <> [] -> ~ In nl d ->
  forallb not_nl open = true -> forallb not_nl close = true ->
  confined (m_delimited d open close).
Proof.
  intros Hd Hnl Ho Hc bol x Hx. split.
  - intros rest. unfold m_delimited.
    rewrite startswith_line_end by (assumption || (right; eauto)).
    destruct (startswith d x) eqn:E; [|reflexivity].
    pose proof (startswith_length _ _ E) as Hlen.
    rewrite drop_app_le by exact Hlen.
    rewrite find_lazy_line by (try assumption; apply forallb_drop, Hx).
    destruct (find_lazy d false (drop (length d) x)) as [k|] eqn:F;
      [|reflexivity].
    apply find_lazy_bound in F.
    rewrite take_app_le by lia. reflexivity.
  - intros n r. unfold m_delimited.
    destruct (startswith d x) eqn:E; [|discriminate].
    pose proof (startswith_length _ _ E) as Hlen.
    destruct (find_lazy d false (drop (length d) x)) as [k|] eqn:F;
      [|discriminate].
    apply find_lazy_bound in F. rewrite length_drop in F.
    intros H. injection H as <- <-. split; [|split].
    + destruct d; [congruence|]. simpl. lia.
    + lia.
    + rewrite !forallb_app, Ho, Hc.
      rewrite forallb_take by (apply forallb_drop, Hx). reflexivity.
Qed.

Lemma bold_confined : confined m_bold.
Proof.
  apply (delimited_confined (lit "**") (lit "<strong>") (lit "</strong>"));
    try reflexivity; [discriminate|].
  simpl. intros [H|[H|[]]]; discriminate.
Qed.

Lemma italic_confined : confined m_italic.
Proof.
  apply (delimited_confined (lit "*") (lit "<em>") (lit "</em>"));
    try reflexivity; [discriminate|].
  simpl. intros [H|[]]; discriminate.
Qed.

Section Confined.

Variable m : matcher.
Hypothesis Hm : confined m.

Lemma confined_empty bol : m bol [] = None.
Proof using Hm.
  destruct (m bol []) as [[n r]|] eqn:E; [|reflexivity].
  destruct (Hm bol [] eq_refl) as [_ H]. specialize (H _ _ E). simpl in H. lia.
Qed.

Lemma sub_from_confined x k bol rest :
  forallb not_nl x = true -> k <= length x ->
  sub_from m bol k (x ++ nl :: rest)
  = sub_from m bol k x ++ nl :: sub_from m true 0 rest.
Proof using Hm.
  revert k bol. induction x as [|c x IH]; intros k bol Hx Hk.
  - simpl in Hk. assert (k = 0) as -> by lia.
    cbn [app sub_from].
    destruct (Hm bol [] eq_refl) as [H _]. specialize (H rest).
    cbn [app] in H. rewrite H, confined_empty. reflexivity.
  - pose proof Hx as Hcx. simpl in Hx. apply andb_true_iff in Hx as [Hc Hx].
    change ((c :: x) ++ nl :: rest) with (c :: (x ++ nl :: rest)).
    cbn [sub_from]. destruct k as [|k].
    + destruct (Hm bol (c :: x) Hcx) as [H1 H2]. specialize (H1 rest).
      change ((c :: x) ++ nl :: rest) with (c :: (x ++ nl :: rest)) in H1.
      rewrite H1. destruct (m bol (c :: x)) as [[n r]|] eqn:E.
      * destruct (H2 _ _ eq_refl) as (Hn1 & Hn2 & _). simpl in Hn2.
        rewrite IH by (assumption || lia). rewrite app_assoc. reflexivity.
      * rewrite IH by (assumption || lia). reflexivity.
    + simpl in Hk. rewrite IH by (assumption || lia). reflexivity.
Qed.

Lemma sub_from_one_line x k bol :
  forallb not_nl x = true -> forallb not_nl (sub_from m bol k x) = true.
Proof using Hm.
  revert k bol. induction x as [|c x IH]; intros k bol Hx; [reflexivity|].
  pose proof Hx as Hcx. simpl in Hx. apply andb_true_iff in Hx as [Hc Hx].
  cbn [sub_from]. destruct k as [|k]; [|apply IH, Hx].
  destruct (m bol (c :: x)) as [[n r]|] eqn:E.
  - destruct (Hm bol (c :: x) Hcx) as [_ H2].
    destruct (H2 _ _ E) as (_ & _ & Hr).
    rewrite forallb_app, Hr, IH by exact Hx. reflexivity.
  - cbn [forallb]. rewrite Hc, IH by exact Hx. reflexivity.
Qed.

Lemma sub_confined_lines lines :
  Forall (fun l => forallb not_nl l = true) lines ->
  sub m (join_nl lines) = join_nl (map (sub m) lines).
Proof using Hm.
  unfold sub. induction 1 as [|l ls Hl Hls IH]; [reflexivity|].
  destruct ls as [|l2 ls]; [reflexivity|].
  change (join_nl (l :: l2 :: ls)) with (l ++ nl :: join_nl (l2 :: ls)).
  rewrite sub_from_confined, IH by (assumption || lia). reflexivity.
Qed.

End Confined.

End ReFacts.

(** ** The markup normaliser *)

Module MarkupFacts.

Import Re Markup PyFacts ReFacts.

Lemma hashes_no_newline k : ~ In nl (repeat "#"%char k).
Proof. intros H. apply repeat_spec in H. discriminate. Qed.

Lemma header_anchored k o c s : m_header k o c false s = None.
Proof. reflexivity. Qed.

Lemma rule_anchored s : m_rule false s = None.
Proof. reflexivity. Qed.

Lemma header_local k o c l :
  one_line l = true -> titled k l ->
  local_on (m_header k o c) (heading k o c) l.
Proof.
  intros Hl Ht rest Hrest. unfold m_header, heading. cbn [andb].
  rewrite startswith_line_end by (apply hashes_no_newline || assumption).
  destruct (startswith (repeat "#"%char k) l) eqn:E; [|reflexivity].
  specialize (Ht E). unfold lstrip in *.
  pose proof (startswith_length _ _ E) as Hk. rewrite repeat_length in Hk.
  rewrite drop_app_le by exact Hk.
  set (d := drop k l) in *.
  rewrite (take_while_app_keep _ d rest) by exact Ht.
  rewrite drop_app_le by apply length_take_while.
  rewrite drop_take_while.
  rewrite take_while_line;
    [|apply forallb_drop_while, forallb_drop, Hl|exact Hrest].
  assert (Hlen : k + length (take_while is_space d)
                 + length (drop_while is_space d) = length l).
  { rewrite <- Nat.add_assoc, <- length_app, take_drop_while.
    unfold d. rewrite length_drop. lia. }
  rewrite Hlen. split; [|split].
  - destruct l; [|simpl; lia]. unfold d in Ht. rewrite drop_nil in Ht.
    simpl in Ht. congruence.
  - lia.
  - rewrite drop_all, app_nil_r. reflexivity.
Qed.

Lemma rule_local l : one_line l = true -> local_on m_rule rule l.
Proof.
  intros Hl rest Hrest. unfold m_rule, rule. cbn [andb].
  rewrite startswith_line_end;
    [|simpl; intros [H|[H|[H|[]]]]; discriminate|exact Hrest].
  destruct (startswith (lit "---") l) eqn:E; [|reflexivity].
  rewrite take_while_line_end by (assumption || reflexivity).
  split; [|split].
  - destruct l as [|c l]; [discriminate|]. cbn [lit list_ascii_of_string startswith take_while] in E |- *.
    destruct (ch_eqb "-" c); [cbn [length]; lia|discriminate].
  - apply length_take_while.
  - rewrite drop_take_while. reflexivity.
Qed.

Lemma heading_untouched k o c l :
  startswith (repeat "#"%char k) l = false -> heading k o c l = l.
Proof. unfold heading. intros ->. reflexivity. Qed.

Lemma startswith_hashes_weaken j k l :
  j <= k -> startswith (repeat "#"%char k) l = true ->
  startswith (repeat "#"%char j) l = true.
Proof.
  intros Hjk H. apply startswith_take in H. apply startswith_take.
  rewrite repeat_length in *.
  replace j with (min j k) by lia. rewrite <- take_take, H.
  clear. revert j. induction k as [|k IH]; intros [|j]; simpl; try reflexivity.
  rewrite IH. reflexivity.
Qed.

Lemma not_bare_titled k l :
  bare_header l = false -> 1 <= k <= 3 -> titled k l.
Proof.
  unfold bare_header, titled. cbn [existsb]. intros H Hk Hs Hd.
  rewrite !orb_false_iff in H. destruct H as (H3 & H2 & H1 & _).
  assert (Hk' : k = 1 \/ k = 2 \/ k = 3) by lia.
  destruct Hk' as [->|[->| ->]]; rewrite Hs, Hd in *; discriminate.
Qed.

(** A heading made by an earlier pass starts with [<], and no later pass
    touches it. *)
Lemma heading_titled j k o c l :
  1 <= j -> match o with "<"%char :: _ => True | _ => False end ->
  titled j l -> titled j (heading k o c l).
Proof.
  intros Hj Ho Ht. unfold heading.
  destruct (startswith (repeat "#"%char k) l); [|exact Ht].
  destruct o as [|a o]; [contradiction|].
  destruct (Ascii.ascii_dec a "<"%char) as [->|Hne].
  - intros Hs. destruct j; [lia|]. discriminate.
  - exfalso. revert Ho. clear -Hne.
    destruct a as [[] [] [] [] [] [] [] []]; simpl; try tauto; congruence.
Qed.

Lemma one_line_heading k o c l :
  one_line o = true -> one_line c = true -> one_line l = true ->
  one_line (heading k o c l) = true.
Proof.
  unfold heading, one_line. intros Ho Hc Hl.
  destruct (startswith _ l); [|exact Hl].
  rewrite !forallb_app, Ho, Hc. unfold lstrip.
  rewrite forallb_drop_while by (apply forallb_drop, Hl). reflexivity.
Qed.

Lemma convert_line_passes l :
  rule (heading 1 (lit "<h1>") (lit "</h1>")
         (heading 2 (lit "<h2>") (lit "</h2>")
           (heading 3 (lit "<h3>") (lit "</h3>") l)))
  = convert_line l.
Proof.
  unfold convert_line, heading.
  change (repeat "#"%char 3) with (lit "###").
  change (repeat "#"%char 2) with (lit "##").
  change (repeat "#"%char 1) with (lit "#").
  destruct (startswith (lit "###") l) eqn:E3; [reflexivity|].
  destruct (startswith (lit "##") l) eqn:E2; [reflexivity|].
  destruct (startswith (lit "#") l) eqn:E1; [reflexivity|].
  unfold rule. reflexivity.
Qed.

(** Steps 1 and 2 work line by line on a text without bare headers. *)
Lemma headers_and_rules_lines lines :
  Forall (fun l => one_line l = true /\ bare_header l = false) lines ->
  headers_and_rules (join_nl lines) = join_nl (map convert_line lines).
Proof.
  intros H. unfold headers_and_rules.
  rewrite (sub_lines _ (header_anchored 3 _ _) (heading 3 (lit "<h3>") (lit "</h3>"))).
  2:{ eapply Forall_impl; [exact H|]. intros l [Hl Hb]. split; [exact Hl|].
      apply header_local; [exact Hl|]. apply not_bare_titled; [exact Hb|lia]. }
  rewrite (sub_lines _ (header_anchored 2 _ _) (heading 2 (lit "<h2>") (lit "</h2>"))).
  2:{ apply Forall_map. eapply Forall_impl; [exact H|]. intros l [Hl Hb].
      split; [apply one_line_heading; auto|].
      apply header_local; [apply one_line_heading; auto|].
      apply heading_titled; [lia|exact I|].
      apply not_bare_titled; [exact Hb|lia]. }
  rewrite (sub_lines _ (header_anchored 1 _ _) (heading 1 (lit "<h1>") (lit "</h1>"))).
  2:{ apply Forall_map, Forall_map. eapply Forall_impl; [exact H|].
      intros l [Hl Hb].
      split; [repeat apply one_line_heading; auto|].
      apply header_local; [repeat apply one_line_heading; auto|].
      repeat (apply heading_titled; [lia|exact I|]).
      apply not_bare_titled; [exact Hb|lia]. }
  rewrite (sub_lines _ rule_anchored rule).
  2:{ apply Forall_map, Forall_map, Forall_map. eapply Forall_impl; [exact H|].
      intros l [Hl Hb]. split; [repeat apply one_line_heading; auto|].
      apply rule_local. repeat apply one_line_heading; auto. }
  rewrite !map_map. f_equal. apply map_ext. intros l. apply convert_line_passes.
Qed.

(** *** Inert text passes steps 3 to 7 unchanged *)

Lemma sub_inert (m : matcher) :
  (forall bol c r, quiet_pair c (head r) = true -> m bol (c :: r) = None) ->
  forall s bol, inert s = true -> sub_from m bol 0 s = s.
Proof.
  intros Hm. induction s as [|c r IH]; intros bol H; [reflexivity|].
  simpl in H. apply andb_true_iff in H as [Hq Hr].
  cbn [sub_from]. rewrite (Hm _ _ _ Hq), IH by exact Hr. reflexivity.
Qed.

Lemma quiet_no_star c r :
  quiet_pair c (head r) = true -> ch_eqb "*"%char c = false.
Proof.
  unfold quiet_pair. intros H. apply andb_true_iff in H as [H _].
  apply negb_true_iff, H.
Qed.

Lemma quiet_no_tag c r t :
  t = "l"%char \/ t = "p"%char \/ t = "b"%char ->
  quiet_pair c (head r) = true ->
  forall pat, startswith ("<"%char :: t :: pat) (c :: r) = false.
Proof.
  intros Ht H pat. unfold quiet_pair in H.
  apply andb_true_iff in H as [_ H]. cbn [startswith].
  destruct (ch_eqb "<"%char c); [|reflexivity].
  destruct r as [|d r]; [reflexivity|]. cbn [head startswith] in *.
  apply andb_true_iff in H as [H _]. apply negb_true_iff in H.
  cbn [andb] in H |- *. rewrite !orb_false_iff in H. destruct H as [[Hl Hp] Hb].
  destruct Ht as [->|[->| ->]]; rewrite ?Hl, ?Hp, ?Hb; reflexivity.
Qed.

Lemma bold_quiet bol c r :
  quiet_pair c (head r) = true -> m_bold bol (c :: r) = None.
Proof.
  intros H. unfold m_bold. cbn [lit list_ascii_of_string startswith].
  rewrite (quiet_no_star _ _ H). reflexivity.
Qed.

Lemma italic_quiet bol c r :
  quiet_pair c (head r) = true -> m_italic bol (c :: r) = None.
Proof.
  intros H. unfold m_italic. cbn [lit list_ascii_of_string startswith].
  rewrite (quiet_no_star _ _ H). reflexivity.
Qed.

Lemma li_group_quiet bol c r :
  quiet_pair c (head r) = true -> m_li_group bol (c :: r) = None.
Proof.
  intros H. unfold m_li_group. cbn [length li_rounds]. unfold li_item.
  change (lit "<li>") with ("<"%char :: "l"%char :: lit "i>").
  rewrite (quiet_no_tag _ _ _ (or_introl eq_refl) H). reflexivity.
Qed.

Lemma empty_p_quiet bol c r :
  quiet_pair c (head r) = true -> m_empty_p bol (c :: r) = None.
Proof.
  intros H. unfold m_empty_p.
  change (lit "<p></p>") with ("<"%char :: "p"%char :: lit "></p>").
  rewrite (quiet_no_tag _ _ _ (or_intror (or_introl eq_refl)) H). reflexivity.
Qed.

Lemma br_quiet bol c r :
  quiet_pair c (head r) = true -> m_br bol (c :: r) = None.
Proof.
  intros H. unfold m_br.
  change (lit "<br>") with ("<"%char :: "b"%char :: lit "r>").
  rewrite (quiet_no_tag _ _ _ (or_intror (or_intror eq_refl)) H). reflexivity.
Qed.

Lemma newlines_inert s bol : inert s = true -> sub_from m_newlines bol 0 s = s.
Proof.
  revert bol. induction s as [|c r IH]; intros bol H; [reflexivity|].
  simpl in H. apply andb_true_iff in H as [Hq Hr].
  cbn [sub_from]. unfold m_newlines. cbn [take_while].
  destruct (ch_eqb nl c) eqn:Ec.
  - assert (Hrun : take_while (ch_eqb nl) r = []).
    { destruct r as [|d r]; [reflexivity|]. cbn [take_while].
      unfold quiet_pair in Hq. cbn [head] in Hq. rewrite Ec in Hq.
      destruct (ch_eqb nl d); [|reflexivity].
      rewrite !andb_true_iff in Hq. destruct Hq as (_ & _ & Hq). discriminate. }
    rewrite Hrun. cbn [length Nat.sub app]. rewrite IH by exact Hr.
    apply ch_eqb_eq in Ec. subst. reflexivity.
  - rewrite IH by exact Hr. reflexivity.
Qed.

Lemma inert_line_then a r :
  one_line a = true -> inert a = true -> inert r = true ->
  match r with c :: _ => ch_eqb nl c = false | [] => True end ->
  inert (a ++ nl :: r) = true.
Proof.
  intros Ha Hi Hr Hhead. induction a as [|c a IH].
  - simpl. rewrite Hr. destruct r as [|d r]; [reflexivity|].
    cbn [head]. unfold quiet_pair. rewrite Hhead. reflexivity.
  - simpl in Ha, Hi. apply andb_true_iff in Ha as [Hc Ha].
    apply andb_true_iff in Hi as [Hq Hi].
    change ((c :: a) ++ nl :: r) with (c :: (a ++ nl :: r)).
    cbn [inert]. rewrite IH by assumption. rewrite andb_true_r.
    destruct a as [|d a]; [|exact Hq].
    cbn [app head]. unfold quiet_pair in *. cbn [head] in Hq.
    rewrite andb_true_r in Hq. rewrite Hq. cbn [andb].
    unfold not_nl in Hc. apply negb_true_iff in Hc.
    unfold ch_eqb in *. rewrite Ascii.eqb_sym in Hc. rewrite Hc.
    rewrite andb_false_l. cbn [negb]. rewrite andb_true_r.
    destruct (Ascii.eqb "<" c); reflexivity.
Qed.

Lemma recognised_parts l :
  recognised l = true ->
  startswith (lit "<h") l = true /\ endswith (lit ">") l = true
  /\ inert l = true /\ one_line l = true.
Proof.
  unfold recognised. rewrite !andb_true_iff. tauto.
Qed.

Lemma recognised_head l :
  recognised l = true -> exists r, l = "<"%char :: "h"%char :: r.
Proof.
  intros H. apply recognised_parts in H as (Hs & _).
  destruct l as [|a [|b r]]; cbn [lit list_ascii_of_string startswith] in Hs.
  - discriminate.
  - rewrite andb_false_r in Hs. discriminate.
  - rewrite !andb_true_iff, !ch_eqb_eq in Hs. destruct Hs as [Ha [Hb _]].
    subst. eauto.
Qed.

Lemma join_recognised_head l ls :
  recognised l = true -> exists r, join_nl (l :: ls) = "<"%char :: "h"%char :: r.
Proof.
  intros H. destruct (recognised_head l H) as [r ->].
  destruct ls; simpl; eauto.
Qed.

Lemma inert_join lines :
  Forall (fun l => recognised l = true) lines -> inert (join_nl lines) = true.
Proof.
  induction 1 as [|l ls Hl Hls IH]; [reflexivity|].
  destruct ls as [|l2 ls].
  - simpl. apply recognised_parts in Hl. tauto.
  - change (join_nl (l :: l2 :: ls)) with (l ++ nl :: join_nl (l2 :: ls)).
    pose proof (recognised_parts _ Hl) as (_ & _ & Hi & Ho).
    apply inert_line_then; auto.
    inversion Hls as [|? ? Hl2 _]; subst.
    destruct (join_recognised_head l2 ls Hl2) as [r ->]. reflexivity.
Qed.

(** *** The lines of a text *)

Lemma split_line l : one_line l = true -> split_nl l = [l].
Proof.
  induction l as [|c l IH]; [reflexivity|]. simpl. intros H.
  apply andb_true_iff in H as [Hc Hl]. unfold not_nl in Hc.
  apply negb_true_iff in Hc. rewrite Hc, IH by exact Hl. reflexivity.
Qed.

Lemma split_line_then l rest :
  one_line l = true -> split_nl (l ++ nl :: rest) = l :: split_nl rest.
Proof.
  induction l as [|c l IH]; intros H.
  - reflexivity.
  - simpl in H. apply andb_true_iff in H as [Hc Hl]. unfold not_nl in Hc.
    apply negb_true_iff in Hc.
    change ((c :: l) ++ nl :: rest) with (c :: (l ++ nl :: rest)).
    cbn [split_nl]. rewrite Hc, IH by exact Hl. reflexivity.
Qed.

Lemma split_join lines :
  lines <> [] -> Forall (fun l => one_line l = true) lines ->
  split_nl (join_nl lines) = lines.
Proof.
  intros Hne H. induction H as [|l ls Hl Hls IH]; [congruence|].
  destruct ls as [|l2 ls].
  - simpl. apply split_line, Hl.
  - change (join_nl (l :: l2 :: ls)) with (l ++ nl :: join_nl (l2 :: ls)).
    rewrite split_line_then, IH by (assumption || discriminate). reflexivity.
Qed.

(** *** Step 5 on one line *)

Lemma lstrip_fix c r : is_space c = false -> lstrip (c :: r) = c :: r.
Proof. intros H. unfold lstrip. apply drop_while_fix, H. Qed.

Lemma rstrip_fix s c :
  endswith [c] s = true -> is_space c = false -> rstrip s = s.
Proof.
  unfold endswith, rstrip. cbn [rev app]. intros H Hc.
  destruct (rev s) as [|d t] eqn:E; [discriminate|].
  cbn [startswith] in H. apply andb_true_iff in H as [H _].
  apply ch_eqb_eq in H. subst d.
  rewrite drop_while_fix by exact Hc. rewrite <- E. apply rev_involutive.
Qed.

Lemma process_recognised l : recognised l = true -> process_line l = l.
Proof.
  intros H. pose proof (recognised_parts _ H) as (Hs & He & _).
  destruct (recognised_head l H) as [r Hr].
  assert (Hstrip : strip l = l).
  { apply strip_fix; [rewrite Hr; apply lstrip_fix; reflexivity|].
    eapply rstrip_fix; [exact He|reflexivity]. }
  unfold process_line. rewrite Hstrip, Hs, He. rewrite Hr. reflexivity.
Qed.


Lemma endswith_join c l ls :
  endswith [c] (List.last (l :: ls) []) = true ->
  endswith [c] (join_nl (l :: ls)) = true.
Proof.
  revert l. induction ls as [|l2 ls IH]; intros l H; [exact H|].
  change (join_nl (l :: l2 :: ls)) with (l ++ nl :: join_nl (l2 :: ls)).
  specialize (IH l2 H). unfold endswith in *. cbn [rev app] in *.
  rewrite rev_app_distr. cbn [rev]. rewrite <- !app_assoc.
  destruct (rev (join_nl (l2 :: ls))) as [|d t]; [discriminate|].
  exact IH.
Qed.

(** *** Steps 1 to 5, line by line *)

Lemma one_line_rule l : one_line l = true -> one_line (rule l) = true.
Proof.
  unfold rule, one_line. intros Hl. destruct (startswith _ l); [|exact Hl].
  rewrite forallb_app, forallb_drop_while by exact Hl. reflexivity.
Qed.

Lemma one_line_convert_line l :
  one_line l = true -> one_line (convert_line l) = true.
Proof.
  intros Hl. rewrite <- convert_line_passes.
  apply one_line_rule. repeat apply one_line_heading; auto.
Qed.

Lemma one_line_emphasis l : one_line l = true -> one_line (emphasis l) = true.
Proof.
  intros Hl. unfold emphasis, sub, one_line.
  apply (sub_from_one_line _ italic_confined).
  apply (sub_from_one_line _ bold_confined), Hl.
Qed.

Lemma emphasis_lines lines :
  Forall (fun l => one_line l = true) lines ->
  emphasis (join_nl lines) = join_nl (map emphasis lines).
Proof.
  intros H. unfold emphasis.
  rewrite (sub_confined_lines _ bold_confined) by exact H.
  rewrite (sub_confined_lines _ italic_confined).
  - rewrite map_map. reflexivity.
  - apply Forall_map. eapply Forall_impl; [exact H|]. intros l Hl.
    apply (sub_from_one_line _ bold_confined), Hl.
Qed.

Lemma through_step_5_lines lines :
  lines <> [] ->
  Forall (fun l => one_line l = true /\ bare_header l = false) lines ->
  through_step_5 (join_nl lines) = join_nl (map line_through_step_5 lines).
Proof.
  intros Hne H. unfold through_step_5.
  rewrite headers_and_rules_lines by exact H.
  rewrite emphasis_lines.
  2:{ apply Forall_map. eapply Forall_impl; [exact H|]. intros l [Hl _].
      apply one_line_convert_line, Hl. }
  unfold process_lines. rewrite split_join.
  - rewrite !map_map. reflexivity.
  - destruct lines; [congruence|discriminate].
  - apply Forall_map, Forall_map. eapply Forall_impl; [exact H|].
    intros l [Hl _]. apply one_line_emphasis, one_line_convert_line, Hl.
Qed.

Lemma Forall_last (P : str -> Prop) l ls :
  Forall P (l :: ls) -> P (List.last (l :: ls) []).
Proof.
  revert l. induction ls as [|l2 ls IH]; intros l H.
  - inversion H; assumption.
  - inversion H; subst. change (P (List.last (l2 :: ls) [])). apply IH. assumption.
Qed.

Lemma map_fixed (f : str -> str) lines :
  Forall (fun l => f l = l) lines -> map f lines = lines.
Proof. induction 1 as [|l ls Hl _ IH]; simpl; congruence. Qed.

(** Steps 3 to 7 leave a text of recognised lines as it is. *)
Lemma steps_3_to_7 lines :
  lines <> [] -> Forall (fun l => recognised l = true) lines ->
  strip (clean_up (group_items (process_lines (emphasis (join_nl lines)))))
  = join_nl lines.
Proof.
  intros Hne H. pose proof (inert_join lines H) as Hi.
  unfold emphasis, sub.
  rewrite (sub_inert m_bold bold_quiet), (sub_inert m_italic italic_quiet)
    by exact Hi.
  unfold process_lines. rewrite split_join; [|exact Hne|].
  2:{ eapply Forall_impl; [exact H|]. intros l Hl.
      apply recognised_parts in Hl. tauto. }
  rewrite map_fixed
    by (eapply Forall_impl; [exact H|]; intros l Hl; apply process_recognised, Hl).
  unfold group_items, clean_up, sub.
  rewrite (sub_inert m_li_group li_group_quiet) by exact Hi.
  rewrite (sub_inert m_empty_p empty_p_quiet), (sub_inert m_br br_quiet)
    by exact Hi.
  rewrite newlines_inert by exact Hi.
  destruct lines as [|l ls]; [congruence|].
  apply strip_fix.
  - inversion H; subst.
    destruct (join_recognised_head l ls) as [r ->]; [assumption|].
    apply lstrip_fix. reflexivity.
  - apply (rstrip_fix _ ">"%char); [|reflexivity]. apply endswith_join.
    apply (Forall_last (fun l => endswith (lit ">") l = true)).
    eapply Forall_impl; [exact H|]. intros x Hx.
    apply recognised_parts in Hx. tauto.
Qed.



(** C6, as amended: the counterexample.  A line of three asterisks is
    no rule in the output: it becomes a paragraph. *)
Lemma asterisks_are_no_rule :
  startswith (lit "***") (lit "***") = true
  /\ convert_to_markup (lit "***") = lit "<p><em></em>*</p>"
  /\ contains (lit "<hr") (convert_to_markup (lit "***")) = false.
Proof. repeat split. Qed.

(** C6, as amended: in a text none of whose lines is a header without a
    title, steps 1 and 2 turn every line that starts with three dashes
    or more into a rule (the dashes become the rule element), and every
    line that starts with one, two or three hashes into a heading of
    that level; lines of asterisks are left alone.  Such a heading or
    rule, when inert, is what step 5 leaves of the line, whatever the
    other lines; and when every line is such a header or rule, this is
    the output of the normaliser. *)
Theorem headers_and_rules_by_line (lines : list str) :
  Forall (fun l => one_line l = true /\ bare_header l = false) lines ->
  headers_and_rules (join_nl lines) = join_nl (map convert_line lines)
  /\ (lines <> [] ->
      through_step_5 (join_nl lines) = join_nl (map line_through_step_5 lines)
      /\ Forall (fun l => recognised (convert_line l) = true ->
                          line_through_step_5 l = convert_line l) lines)
  /\ (lines <> [] ->
      Forall (fun l => recognised (convert_line l) = true) lines ->
      convert_to_markup (join_nl lines) = join_nl (map convert_line lines)).
Proof.
  intros H. split; [apply headers_and_rules_lines, H|]. split.
  - intros Hne. split; [apply through_step_5_lines; assumption|].
    apply Forall_forall. intros l _ Hrec. unfold line_through_step_5.
    pose proof (recognised_parts _ Hrec) as (_ & _ & Hi & _).
    unfold emphasis, sub.
    rewrite (sub_inert m_bold bold_quiet), (sub_inert m_italic italic_quiet)
      by exact Hi.
    apply process_recognised, Hrec.
  - intros Hne Hrec. unfold convert_to_markup.
    assert (Hfalsy : falsy (join_nl lines) = false).
    { destruct lines as [|l ls]; [congruence|]. inversion Hrec; subst.
      destruct l as [|c l]; [discriminate|]. destruct ls; reflexivity. }
    rewrite Hfalsy, headers_and_rules_lines by exact H.
    apply steps_3_to_7.
    + destruct lines; [congruence|discriminate].
    + apply Forall_map. exact Hrec.
Qed.

Lemma headers_and_rules_by_line_witness :
  let lines := [lit "# Title"; lit "-----"; lit "###   Deep #1"; lit "##Sub"] in
  Forall (fun l => one_line l = true /\ bare_header l = false) lines
  /\ lines <> []
  /\ Forall (fun l => recognised (convert_line l) = true) lines
  /\ convert_to_markup (join_nl lines)
     = join_nl [lit "<h1>Title</h1>"; lit "<hr>"; lit "<h3>Deep #1</h3>";
                lit "<h2>Sub</h2>"].
Proof.
  intros lines.
  assert (H : Forall (fun l => one_line l = true /\ bare_header l = false) lines)
    by (repeat constructor).
  assert (Hrec : Forall (fun l => recognised (convert_line l) = true) lines)
    by (repeat constructor).
  assert (Hne : lines <> []) by discriminate.
  split; [exact H|]. split; [exact Hne|]. split; [exact Hrec|].
  exact (proj2 (proj2 (headers_and_rules_by_line lines H)) Hne Hrec).
Defined.

(** C7: three blank lines between two lines of text leave two break
    markers in the output, not one: the pattern that removes duplicate
    breaks is applied once, to pairs that do not overlap.  Two blank
    lines do leave one. *)
Theorem three_blank_lines_keep_two_breaks :
  convert_to_markup (lit "a" ++ [nl; nl; nl; nl] ++ lit "b")
  = join_nl [lit "<p>a</p>"; lit "<br>"; lit "<br>"; lit "<p>b</p>"]
  /\ convert_to_markup (lit "a" ++ [nl; nl; nl] ++ lit "b")
     = join_nl [lit "<p>a</p>"; lit "<br>"; lit "<p>b</p>"].
Proof. split; reflexivity. Qed.





End MarkupFacts.

(** ** The service *)

Module ServiceFacts.

Import Judge Service.

Section WithProvider.

Variable Num : Type.
Variable parse_int parse_float : str -> str + Num.
Variable environ : gmap string str.
Variable create_completion : Request Num -> str + str.
Variable create_stream : Request Num -> str + list (option str).
Variable validate_csrf_token : str -> bool.
Variable validation_error : str.

Local Abbreviation call :=
  (call_cerebras_model Num parse_int parse_float environ
     create_completion create_stream).
Local Abbreviation result :=
  (call_result Num parse_int parse_float environ create_completion create_stream).
Local Abbreviation sent :=
  (call_sent Num parse_int parse_float environ create_completion create_stream).
Local Abbreviation fan_out :=
  (fan_out Num parse_int parse_float environ create_completion create_stream).
Local Abbreviation process_with_judge :=
  (process_with_judge Num parse_int parse_float environ
     create_completion create_stream).
Local Abbreviation ask_question :=
  (ask_question Num parse_int parse_float environ
     create_completion create_stream validation_error).
Local Abbreviation web_ask_question :=
  (web_ask_question Num parse_int parse_float environ
     create_completion create_stream validate_csrf_token).

(** A call returns and sends the same whatever was sent before. *)
Lemma call_pure model question system_message :
  has_outcome Num (call model question system_message)
    (result model question system_message, sent model question system_message).
Proof.
  intros w. unfold call_result, call_sent, call_cerebras_model.
  unfold mbind, M_bind, bind, lift_value_error, raise, ret, send.
  destruct (parse_int _); [simpl; rewrite app_nil_r; reflexivity|].
  destruct (parse_float _); [simpl; rewrite app_nil_r; reflexivity|].
  destruct (parse_float _); [simpl; rewrite app_nil_r; reflexivity|].
  cbn [fst snd app].
  destruct (str_eqb _ _).
  - destruct (create_stream _); reflexivity.
  - destruct (create_completion _); reflexivity.
Qed.

(** *** [gather] *)

Lemma insert_by_perm delay i l : insert_by delay i l ≡ₚ i :: l.
Proof.
  induction l as [|j l IH]; simpl; [reflexivity|].
  destruct (delay i <=? delay j); [reflexivity|].
  rewrite IH. apply Permutation_swap.
Qed.

Lemma completion_order_perm delay n : completion_order delay n ≡ₚ seq 0 n.
Proof.
  unfold completion_order. induction (seq 0 n) as [|i l IH]; simpl; [reflexivity|].
  rewrite insert_by_perm, IH. reflexivity.
Qed.

Lemma completion_order_elem delay n i :
  i < n -> i ∈ completion_order delay n.
Proof.
  intros Hi. rewrite completion_order_perm. apply elem_of_seq. lia.
Qed.

Lemma complete_all_pure tasks outcomes order g w :
  Forall2 (has_outcome Num) tasks outcomes ->
  complete_all Num tasks order g w
  = (inr (fold_left (settle Num outcomes) order g),
     w ++ trace Num outcomes order).
Proof.
  intros H. revert g w. induction order as [|i rest IH]; intros g w.
  - simpl. unfold ret. rewrite app_nil_r. reflexivity.
  - cbn [complete_all fold_left trace flat_map].
    unfold mbind, M_bind, bind, complete, settle.
    destruct (tasks !! i) as [task|] eqn:Et.
    + destruct (Forall2_lookup_l _ _ _ _ _ H Et) as (o & Eo & Ho).
      rewrite Eo, (Ho w). destruct o as [[e|r] s]; cbn [fst snd];
        rewrite IH, <- app_assoc; reflexivity.
    + assert (Eo : outcomes !! i = None).
      { apply lookup_ge_None. rewrite <- (Forall2_length _ _ _ H).
        apply lookup_ge_None, Et. }
      rewrite Eo. unfold ret. rewrite IH. reflexivity.
Qed.

Lemma settle_length outcomes g i :
  length (slots (settle Num outcomes g i)) = length (slots g).
Proof.
  unfold settle. destruct (outcomes !! i) as [[[e|r] s]|]; simpl;
    rewrite ?length_insert; reflexivity.
Qed.

Lemma settled_first_exception outcomes order g :
  first_exception (fold_left (settle Num outcomes) order g)
  = match first_exception g with
    | Some e => Some e
    | None => first_failure Num outcomes order
    end.
Proof.
  revert g. induction order as [|i rest IH]; intros g.
  - simpl. destruct (first_exception g); reflexivity.
  - cbn [fold_left first_failure]. rewrite IH. unfold settle.
    destruct (outcomes !! i) as [[[e|r] s]|]; simpl;
      destruct (first_exception g); reflexivity.
Qed.

Lemma settled_slot_kept outcomes order g i t s :
  outcomes !! i = Some (inr t, s) ->
  slots g !! i = Some (Some t) ->
  slots (fold_left (settle Num outcomes) order g) !! i = Some (Some t).
Proof.
  intros Ho. revert g. induction order as [|j rest IH]; intros g Hg; [exact Hg|].
  cbn [fold_left]. apply IH. unfold settle.
  destruct (outcomes !! j) as [[[e|r] s']|] eqn:Ej; simpl; try exact Hg.
  destruct (decide (j = i)) as [->|Hne].
  - rewrite Ho in Ej. injection Ej as -> _.
    apply list_lookup_insert_eq. eapply lookup_lt_Some, Hg.
  - rewrite list_lookup_insert_ne by exact Hne. exact Hg.
Qed.

Lemma settled_slot outcomes order g i t s :
  outcomes !! i = Some (inr t, s) ->
  i ∈ order -> i < length (slots g) ->
  slots (fold_left (settle Num outcomes) order g) !! i = Some (Some t).
Proof.
  intros Ho. revert g. induction order as [|j rest IH]; intros g Hin Hlen.
  - apply elem_of_nil in Hin. contradiction.
  - cbn [fold_left]. apply elem_of_cons in Hin as [->|Hin].
    + eapply settled_slot_kept; [exact Ho|].
      unfold settle. rewrite Ho. simpl.
      apply list_lookup_insert_eq, Hlen.
    + apply IH; [exact Hin|]. rewrite settle_length. exact Hlen.
Qed.

Lemma gather_pure delay tasks outcomes w :
  Forall2 (has_outcome Num) tasks outcomes ->
  gather Num delay tasks w
  = let order := completion_order delay (length tasks) in
    let g := fold_left (settle Num outcomes) order
               (mkGather (replicate (length tasks) None) None) in
    (match first_failure Num outcomes order with
     | Some e => inl e
     | None => inr (default [] <$> slots g)
     end, w ++ trace Num outcomes order).
Proof.
  intros H. unfold gather, mbind, M_bind, bind.
  rewrite (complete_all_pure _ _ _ _ _ H). cbn zeta.
  rewrite settled_first_exception. cbn [first_exception].
  destruct (first_failure Num outcomes _); reflexivity.
Qed.

Lemma first_failure_none outcomes order :
  (forall i e s, outcomes !! i <> Some (inl e, s)) ->
  first_failure Num outcomes order = None.
Proof.
  intros H. induction order as [|i rest IH]; [reflexivity|]. simpl.
  destruct (outcomes !! i) as [[[e|r] s]|] eqn:E; try exact IH.
  exfalso. eapply H, E.
Qed.

Lemma first_failure_some outcomes order i e s :
  i ∈ order -> outcomes !! i = Some (inl e, s) ->
  exists j e' s', j ∈ order /\ outcomes !! j = Some (inl e', s')
                  /\ first_failure Num outcomes order = Some e'.
Proof.
  intros Hin Ho. induction order as [|k rest IH].
  - apply elem_of_nil in Hin. contradiction.
  - simpl. destruct (outcomes !! k) as [[[e'|r] s']|] eqn:Ek.
    + exists k, e', s'. split; [left|]. auto.
    + apply elem_of_cons in Hin as [->|Hin]; [congruence|].
      destruct (IH Hin) as (j & e' & s2 & Hj & Hoj & Hf).
      exists j, e', s2. split; [right; exact Hj|]. auto.
    + apply elem_of_cons in Hin as [->|Hin]; [congruence|].
      destruct (IH Hin) as (j & e' & s2 & Hj & Hoj & Hf).
      exists j, e', s2. split; [right; exact Hj|]. auto.
Qed.


(** *** The fan-out *)

Local Abbreviation outcomes3 m1 m2 m3 q sys :=
  [(result m1 q sys, sent m1 q sys); (result m2 q sys, sent m2 q sys);
   (result m3 q sys, sent m3 q sys)].

Lemma tasks_outcomes m1 m2 m3 q sys :
  Forall2 (has_outcome Num) [call m1 q sys; call m2 q sys; call m3 q sys]
          (outcomes3 m1 m2 m3 q sys).
Proof. repeat constructor; apply call_pure. Qed.

Lemma fan_out_ok delay m1 m2 m3 q sys w t1 t2 t3 :
  result m1 q sys = inr t1 -> result m2 q sys = inr t2 ->
  result m3 q sys = inr t3 ->
  fan_out delay m1 m2 m3 q sys w
  = (inr (<["MODEL1" := t1]> (<["MODEL2" := t2]> (<["MODEL3" := t3]> ∅))),
     w ++ trace Num (outcomes3 m1 m2 m3 q sys) (completion_order delay 3)).
Proof.
  intros H1 H2 H3. unfold Service.fan_out, mbind, M_bind, bind.
  rewrite (gather_pure _ _ _ _ (tasks_outcomes m1 m2 m3 q sys)).
  cbn [length]. cbn zeta.
  rewrite first_failure_none.
  2:{ intros [|[|[|i]]] e s; cbn [lookup list_lookup];
        rewrite ?H1, ?H2, ?H3. all: try congruence. destruct i; discriminate. }
  set (g := fold_left _ _ _).
  assert (Hslot : forall i t s,
            i < 3 -> outcomes3 m1 m2 m3 q sys !! i = Some (inr t, s) ->
            item Num (default [] <$> slots g) i
            = fun w => (inr t, w)).
  { intros i t s Hi Ho. unfold item. rewrite list_lookup_fmap.
    unfold g. erewrite settled_slot;
      [reflexivity|exact Ho|apply completion_order_elem, Hi|].
    cbn [slots]. rewrite length_replicate. exact Hi. }
  rewrite (Hslot 0 t1 (sent m1 q sys)) by (lia || (simpl; rewrite H1; reflexivity)).
  rewrite (Hslot 1 t2 (sent m2 q sys)) by (lia || (simpl; rewrite H2; reflexivity)).
  rewrite (Hslot 2 t3 (sent m3 q sys)) by (lia || (simpl; rewrite H3; reflexivity)).
  reflexivity.
Qed.

Lemma fan_out_fail delay m1 m2 m3 q sys w e :
  first_failure Num (outcomes3 m1 m2 m3 q sys) (completion_order delay 3) = Some e ->
  fan_out delay m1 m2 m3 q sys w
  = (inl e, w ++ trace Num (outcomes3 m1 m2 m3 q sys) (completion_order delay 3)).
Proof.
  intros H. unfold Service.fan_out, mbind, M_bind, bind.
  rewrite (gather_pure _ _ _ _ (tasks_outcomes m1 m2 m3 q sys)).
  cbn [length]. cbn zeta. rewrite H. reflexivity.
Qed.

(** C4: when the three backend calls succeed, the fan-out returns the
    text of each call under the label of its model, whatever the order in
    which the calls complete. *)
Theorem fan_out_labels (delay : nat -> nat) (m1 m2 m3 q sys : str)
    (w : list (Request Num)) (t1 t2 t3 : str) :
  result m1 q sys = inr t1 -> result m2 q sys = inr t2 ->
  result m3 q sys = inr t3 ->
  exists triple : gmap string str,
    fst (fan_out delay m1 m2 m3 q sys w) = inr triple
    /\ triple !! "MODEL1" = Some t1
    /\ triple !! "MODEL2" = Some t2
    /\ triple !! "MODEL3" = Some t3
    /\ dom triple = {["MODEL1"; "MODEL2"; "MODEL3"]}.
Proof.
  intros H1 H2 H3. eexists. rewrite (fan_out_ok _ _ _ _ _ _ _ _ _ _ H1 H2 H3).
  split; [reflexivity|].
  split; [by simplify_map_eq|]. split; [by simplify_map_eq|].
  split; [by simplify_map_eq|].
  rewrite !dom_insert_L, dom_empty_L. set_solver.
Qed.

(** C5: when one of the three backend calls fails, the fan-out returns
    no responses at all: it raises the exception of the first call that
    failed, the endpoint raises that exception (as its [except] clauses
    leave it), and the only requests sent are those of the three backend
    calls, none to the judge. *)
Theorem fan_out_all_or_nothing (delay : nat -> nat) (m1 m2 m3 q sys : str)
    (w : list (Request Num)) :
  models_configured environ = Some (m1, m2, m3) ->
  (exists (i : nat) e s, outcomes3 m1 m2 m3 q sys !! i = Some (inl e, s)) ->
  exists (j : nat) e s,
    outcomes3 m1 m2 m3 q sys !! j = Some (inl e, s)
    /\ first_failure Num (outcomes3 m1 m2 m3 q sys) (completion_order delay 3)
       = Some e
    /\ fan_out delay m1 m2 m3 q sys w
       = (inl e, w ++ trace Num (outcomes3 m1 m2 m3 q sys)
                         (completion_order delay 3))
    /\ ask_question delay q sys w
       = (inl (surface e),
          w ++ trace Num (outcomes3 m1 m2 m3 q sys) (completion_order delay 3)).
Proof.
  intros Hm (i & e & s & Hi).
  assert (Hin : i ∈ completion_order delay 3).
  { apply completion_order_elem. apply lookup_lt_Some in Hi. exact Hi. }
  destruct (first_failure_some _ _ _ _ _ Hin Hi) as (j & e' & s' & _ & Hj & Hf).
  exists j, e', s'. split; [exact Hj|]. split; [exact Hf|].
  pose proof (fan_out_fail delay m1 m2 m3 q sys w e' Hf) as Hfan.
  split; [exact Hfan|].
  unfold Service.ask_question. rewrite Hm.
  unfold try_except, mbind, M_bind, bind. rewrite Hfan. reflexivity.
Qed.

(** C3, as amended: the text the web endpoint returns is the final
    answer parsed from the reply of the judge, as it is; the markup
    normaliser is not applied to it. *)
Theorem web_returns_final_answer_as_is (delay : nat -> nat)
    (question csrf_token : str) (w w' : list (Request Num)) (r : WebResponse) :
  web_ask_question delay question csrf_token w = (inr r, w') ->
  exists judge_model triple w1 raw,
    environ !! "JUDGE" = Some judge_model
    /\ call judge_model (judge_prompt environ question triple)
         judge_system_message w1 = (inr raw, w')
    /\ response r = jr_final_answer (parse_judge raw).
Proof.
  unfold Service.web_ask_question.
  destruct (validate_csrf_token csrf_token); cbn [negb]; [|discriminate].
  unfold try_except. destruct (models_configured environ) as [[[m1 m2] m3]|];
    [|discriminate].
  unfold mbind, M_bind, bind.
  destruct (Service.fan_out _ _ _ _ _ _ _ _ _ _ _ _ w) as [[e|triple] w1];
    [discriminate|].
  unfold Service.process_with_judge, getenv.
  destruct (environ !! "JUDGE") as [[|c jm]|] eqn:Ej; try discriminate.
  unfold mbind, M_bind, bind.
  destruct (call (c :: jm) _ _ w1) as [[e|raw] w2] eqn:Ec; [discriminate|].
  unfold ret. intros H. injection H as <- <-.
  exists (c :: jm), triple, w1, raw. auto.
Qed.

End WithProvider.

Import Scenario.

Lemma fan_out_labels_witness :
  call_result nat parse parse environ answers no_stream
    (lit "alpha") (lit "Why?") [] = inr (lit "answer of alpha")
  /\ exists triple : gmap string str,
       fst (Service.fan_out nat parse parse environ answers no_stream delays
              (lit "alpha") (lit "beta") (lit "gamma") (lit "Why?") [] [])
       = inr triple
       /\ triple !! "MODEL1" = Some (lit "answer of alpha")
       /\ triple !! "MODEL3" = Some (lit "answer of gamma").
Proof.
  split; [reflexivity|].
  destruct (fan_out_labels nat parse parse environ answers no_stream delays
              (lit "alpha") (lit "beta") (lit "gamma") (lit "Why?") [] []
              _ _ _ eq_refl eq_refl eq_refl)
    as (triple & H & H1 & _ & H3 & _).
  exists triple. auto.
Defined.

Lemma fan_out_all_or_nothing_witness :
  models_configured environ = Some (lit "alpha", lit "beta", lit "gamma")
  /\ exists e,
       Service.ask_question nat parse parse environ beta_down no_stream refused
         delays (lit "Why?") [] []
       = (inl (surface e),
          [mkRequest (lit "gamma") [mkMessage (lit "user") (lit "Why?")] 0 0 0 false;
           mkRequest (lit "beta") [mkMessage (lit "user") (lit "Why?")] 0 0 0 false;
           mkRequest (lit "alpha") [mkMessage (lit "user") (lit "Why?")] 0 0 0 false]).
Proof.
  split; [reflexivity|].
  destruct (fan_out_all_or_nothing nat parse parse environ beta_down no_stream
              refused delays (lit "alpha") (lit "beta") (lit "gamma") (lit "Why?")
              [] [] eq_refl)
    as (j & e & s & _ & _ & _ & H).
  - exists 1, (HTTPException 500 (lit "Error calling beta: connection refused")),
      [mkRequest (lit "beta") [mkMessage (lit "user") (lit "Why?")] 0 0 0 false].
    reflexivity.
  - exists e. exact H.
Defined.

Lemma web_returns_final_answer_as_is_witness :
  exists r w',
    Service.web_ask_question nat parse parse environ answers no_stream valid
      delays (lit "Why?") (lit "token") [] = (inr r, w')
    /\ exists judge_model triple w1 raw,
         environ !! "JUDGE" = Some judge_model
         /\ call_cerebras_model nat parse parse environ answers no_stream
              judge_model (judge_prompt environ (lit "Why?") triple)
              judge_system_message w1 = (inr raw, w')
         /\ response r = jr_final_answer (parse_judge raw).
Proof.
  eexists _, _. split; [reflexivity|].
  exact (web_returns_final_answer_as_is nat parse parse environ answers
           no_stream valid delays (lit "Why?") (lit "token") [] _ _ eq_refl).
Defined.

(** C3 as stated fails: the web endpoint returns the final answer of
    the judge, here Hello, and not what the markup normaliser makes of
    it, a paragraph. *)
Lemma web_answer_is_not_normalised :
  fst (Service.web_ask_question nat parse parse environ answers no_stream valid
         delays (lit "Why?") (lit "token") [])
  = inr (mkWebResponse (lit "Hello"))
  /\ jr_final_answer (parse_judge judge_text) = lit "Hello"
  /\ Markup.convert_to_markup (lit "Hello") = lit "<p>Hello</p>"
  /\ fst (Service.web_ask_question nat parse parse environ answers no_stream valid
            delays (lit "Why?") (lit "token") [])
     <> inr (mkWebResponse
               (Markup.convert_to_markup (jr_final_answer (parse_judge judge_text)))).
Proof.
  split; [vm_compute; reflexivity|]. split; [reflexivity|]. split; [reflexivity|].
  vm_compute. discriminate.
Qed.

End ServiceFacts.

(** * Further properties *)

(** ** The judge parser *)

Module JudgeMore.

Import Judge Shape PyFacts JudgeFacts.

Lemma scan_lines_app st ls1 ls2 :
  scan_lines st (ls1 ++ ls2) = scan_lines (scan_lines st ls1) ls2.
Proof. unfold scan_lines. apply fold_left_app. Qed.

(** A text none of whose lines starts with a marker, as the markers are
    written (upper case, at the start of the line), is returned whole
    and trimmed as the final answer, with an empty reasoning. *)
Theorem unmarked_text_falls_back (raw : str) :
  Forall (fun l => is_marker_line l = false) (split_nl raw) ->
  parse_judge raw = mkJudgeResult (strip raw) [].
Proof.
  intros H. apply parse_judge_fallback; rewrite other_lines by exact H; reflexivity.
Qed.

Lemma unmarked_text_falls_back_witness :
  let raw := lit "final_answer: lower case" ++ nl :: lit "  FINAL_ANSWER: indented  " in
  Forall (fun l => is_marker_line l = false) (split_nl raw)
  /\ parse_judge raw
     = mkJudgeResult
         (lit "final_answer: lower case" ++ nl :: lit "  FINAL_ANSWER: indented") [].
Proof.
  intros raw.
  assert (H : Forall (fun l => is_marker_line l = false) (split_nl raw))
    by (repeat constructor).
  split; [exact H|]. exact (unmarked_text_falls_back raw H).
Defined.

(** The last marker line of a kind wins: whatever the lines before it
    gave the field, the field restarts at that line, and the other field
    is kept as it was. *)
Theorem last_marker_wins (st : scan_state) (pre post : list str) (a : str) :
  Forall (fun l => is_marker_line l = false) post ->
  scan_lines st (pre ++ (FINAL_ANSWER ++ a) :: post)
  = ScanState (strip (replace FINAL_ANSWER [] a) ++ continuation post)
              (reasoning (scan_lines st pre)) InFinalAnswer
  /\ scan_lines st (pre ++ (REASONING ++ a) :: post)
     = ScanState (final_answer (scan_lines st pre))
                 (strip (replace REASONING [] a) ++ continuation post)
                 InReasoning.
Proof.
  intros H. rewrite !scan_lines_app. split.
  - change (scan_lines ?s (?l :: post)) with (scan_lines (scan_line s l) post).
    rewrite other_lines, final_answer_line by exact H. reflexivity.
  - change (scan_lines ?s (?l :: post)) with (scan_lines (scan_line s l) post).
    rewrite other_lines, reasoning_line by exact H. reflexivity.
Qed.

Lemma last_marker_wins_witness :
  let pre := [lit "FINAL_ANSWER: draft"; lit "more draft"; lit "REASONING: why"] in
  let post := [lit "second line"] in
  Forall (fun l => is_marker_line l = false) post
  /\ scan_lines scan_init (pre ++ (FINAL_ANSWER ++ lit " final") :: post)
     = ScanState (lit "final second line") (lit "why") InFinalAnswer.
Proof.
  intros pre post.
  assert (H : Forall (fun l => is_marker_line l = false) post)
    by (repeat constructor).
  split; [exact H|].
  exact (proj1 (last_marker_wins scan_init pre post (lit " final") H)).
Defined.

(** *** The fields returned *)

Lemma forallb_rstrip (q : ascii -> bool) s :
  forallb q s = true -> forallb q (rstrip s) = true.
Proof.
  intros H. unfold rstrip. rewrite forallb_rev.
  apply ReFacts.forallb_drop_while. rewrite forallb_rev. exact H.
Qed.

Lemma forallb_strip (q : ascii -> bool) s :
  forallb q s = true -> forallb q (strip s) = true.
Proof.
  intros H. unfold strip, lstrip.
  apply forallb_rstrip, ReFacts.forallb_drop_while, H.
Qed.

Lemma forallb_replace_from (q : ascii -> bool) old k s :
  forallb q s = true -> forallb q (replace_from old [] k s) = true.
Proof.
  revert k. induction s as [|c s IH]; intros k H; [reflexivity|].
  simpl in H. apply andb_true_iff in H as [Hc Hs].
  cbn [replace_from]. destruct k as [|k]; [|apply IH, Hs].
  destruct (startswith old (c :: s)); cbn [app forallb];
    rewrite ?Hc, IH by exact Hs; reflexivity.
Qed.

Lemma forallb_removed (q : ascii -> bool) old s :
  old <> [] -> forallb q s = true -> forallb q (replace old [] s) = true.
Proof.
  intros Hne H. destruct old as [|o old]; [congruence|].
  apply forallb_replace_from, H.
Qed.

Lemma split_nl_lines s : Forall (fun l => forallb Re.not_nl l = true) (split_nl s).
Proof.
  induction s as [|c s IH]; [repeat constructor|].
  cbn [split_nl]. destruct (ch_eqb c nl) eqn:E.
  - constructor; [reflexivity|exact IH].
  - destruct (split_nl s) as [|l ls]; [repeat constructor|].
    + simpl. unfold Re.not_nl. rewrite E. reflexivity.
    + inversion IH; subst. constructor; [|assumption].
      simpl. unfold Re.not_nl at 1. rewrite E. assumption.
Qed.

Lemma scan_line_flat st line :
  forallb Re.not_nl line = true -> flat st -> flat (scan_line st line).
Proof.
  intros Hl [Hf Hr]. unfold scan_line, flat.
  destruct (startswith FINAL_ANSWER line).
  { cbn [final_answer reasoning]. split; [|exact Hr].
    apply forallb_strip, forallb_removed; [discriminate|exact Hl]. }
  destruct (startswith REASONING line).
  { cbn [final_answer reasoning]. split; [exact Hf|].
    apply forallb_strip, forallb_removed; [discriminate|exact Hl]. }
  destruct (current_section st); cbn [final_answer reasoning];
    try (split; assumption).
  - split; [|exact Hr]. rewrite !forallb_app, Hf.
    rewrite forallb_strip by exact Hl. reflexivity.
  - split; [exact Hf|]. rewrite !forallb_app, Hr.
    rewrite forallb_strip by exact Hl. reflexivity.
Qed.

Lemma scan_lines_flat lines st :
  Forall (fun l => forallb Re.not_nl l = true) lines ->
  flat st -> flat (scan_lines st lines).
Proof.
  intros H. revert st. induction H as [|l ls Hl _ IH]; intros st Hst; [exact Hst|].
  apply (IH (scan_line st l)), scan_line_flat; assumption.
Qed.

(** Both fields are returned trimmed, and the reasoning is always one
    line; so is the final answer unless the fallback returns the whole
    text: the lines of a section are joined by spaces. *)
Theorem fields_are_trimmed_and_flat (raw : str) :
  let result := parse_judge raw in
  let found := scan_lines scan_init (split_nl raw) in
  strip (jr_final_answer result) = jr_final_answer result
  /\ strip (jr_reasoning result) = jr_reasoning result
  /\ forallb Re.not_nl (jr_reasoning result) = true
  /\ (strip (final_answer found) <> [] \/ strip (reasoning found) <> [] ->
      forallb Re.not_nl (jr_final_answer result) = true).
Proof.
  intros result found.
  assert (Hflat : flat found).
  { apply scan_lines_flat; [apply split_nl_lines|split; reflexivity]. }
  destruct Hflat as [Hf Hr].
  split; [apply strip_idemp|]. split; [apply strip_idemp|].
  split; [apply forallb_strip, Hr|].
  intros H. unfold result. rewrite (parse_judge_found raw H). simpl.
  apply forallb_strip, Hf.
Qed.

Lemma fields_are_trimmed_and_flat_witness :
  let raw := lit "FINAL_ANSWER:  one " ++ nl :: lit " two" ++ nl :: lit "REASONING: r " in
  parse_judge raw = mkJudgeResult (lit "one two") (lit "r")
  /\ forallb Re.not_nl (jr_final_answer (parse_judge raw)) = true.
Proof.
  intros raw. split; [reflexivity|].
  apply (fields_are_trimmed_and_flat raw). left. discriminate.
Defined.

End JudgeMore.

(** ** Substitution where nothing matches, and after a match *)

Module ReMore.

Import Re Shape PyFacts ReFacts.

Lemma sub_from_unanchored m b1 b2 k s :
  unanchored m -> sub_from m b1 k s = sub_from m b2 k s.
Proof.
  intros Hm. destruct s as [|c r]; [reflexivity|].
  cbn [sub_from]. destruct k; [|reflexivity]. rewrite (Hm b1 b2). reflexivity.
Qed.

Lemma contains_cons p c r :
  contains p (c :: r) = false <->
  startswith p (c :: r) = false /\ contains p r = false.
Proof. cbn [contains]. apply orb_false_iff. Qed.

(** Where the pattern occurs nowhere, the substitution changes nothing. *)
Lemma sub_absent m p s b :
  starts_with p m -> contains p s = false -> sub_from m b 0 s = s.
Proof.
  intros Hm. revert b. induction s as [|c r IH]; intros b H; [reflexivity|].
  apply contains_cons in H as [Hs Hr].
  cbn [sub_from]. rewrite (Hm _ _ Hs), IH by exact Hr. reflexivity.
Qed.

(** The scan copies a stretch without the first character of the
    pattern. *)
Lemma sub_from_stretch m h p x rest b :
  starts_with (h :: p) m -> unanchored m ->
  forallb (fun c => negb (ch_eqb h c)) x = true ->
  sub_from m b 0 (x ++ rest) = x ++ sub_from m b 0 rest.
Proof.
  intros Hm Hu. induction x as [|c x IH]; intros Hx; [reflexivity|].
  simpl in Hx. apply andb_true_iff in Hx as [Hc Hx].
  change ((c :: x) ++ rest) with (c :: (x ++ rest)). cbn [sub_from].
  rewrite Hm by (cbn [startswith]; apply negb_true_iff in Hc; rewrite Hc; reflexivity).
  rewrite (sub_from_unanchored m _ b 0 _ Hu), IH by exact Hx. reflexivity.
Qed.

(** After a match the scan resumes behind it. *)
Lemma sub_from_passed m x rest b :
  unanchored m ->
  sub_from m b (length x) (x ++ rest) = sub_from m b 0 rest.
Proof.
  intros Hu. revert b. induction x as [|c x IH]; intros b; [reflexivity|].
  cbn [length app sub_from]. rewrite IH. apply sub_from_unanchored, Hu.
Qed.

Lemma sub_from_match m x rest b repl :
  unanchored m -> x <> [] ->
  m b (x ++ rest) = Some (length x, repl) ->
  sub_from m b 0 (x ++ rest) = repl ++ sub_from m b 0 rest.
Proof.
  intros Hu Hx Hm. destruct x as [|c x]; [congruence|].
  change ((c :: x) ++ rest) with (c :: (x ++ rest)) in *.
  cbn [sub_from]. rewrite Hm. cbn [length]. rewrite Nat.sub_succ, Nat.sub_0_r.
  rewrite sub_from_passed by exact Hu.
  rewrite (sub_from_unanchored m _ b 0 _ Hu). reflexivity.
Qed.

(** The lazy group stops at the first closing delimiter. *)
Lemma find_lazy_stretch h p dotall x rest :
  forallb (fun c => negb (ch_eqb h c)) x = true ->
  (dotall = true \/ forallb not_nl x = true) ->
  find_lazy (h :: p) dotall (x ++ (h :: p) ++ rest) = Some (length x).
Proof.
  intros Hx Hd. induction x as [|c x IH].
  - cbn [app length]. change (h :: p ++ rest) with ((h :: p) ++ rest).
    destruct rest; cbn [find_lazy app]; 
      change (h :: p ++ ?r) with ((h :: p) ++ r); rewrite startswith_app; reflexivity.
  - simpl in Hx. apply andb_true_iff in Hx as [Hc Hx].
    change ((c :: x) ++ ?r) with (c :: (x ++ r)). cbn [find_lazy].
    apply negb_true_iff in Hc. cbn [startswith]. rewrite Hc. cbn [andb].
    assert (Hnl : negb dotall && ch_eqb c nl = false).
    { destruct Hd as [->|Hd]; [reflexivity|]. simpl in Hd.
      apply andb_true_iff in Hd as [Hd _]. unfold not_nl in Hd.
      apply negb_true_iff in Hd. rewrite Hd. apply andb_false_r. }
    rewrite Hnl, IH; [reflexivity|exact Hx|].
    destruct Hd as [Hd|Hd]; [left; exact Hd|right].
    simpl in Hd. apply andb_true_iff in Hd. tauto.
Qed.

Lemma sub_from_miss m b c r :
  unanchored m -> m b (c :: r) = None ->
  sub_from m b 0 (c :: r) = c :: sub_from m b 0 r.
Proof.
  intros Hu H. cbn [sub_from]. rewrite H.
  rewrite (sub_from_unanchored m _ b 0 _ Hu). reflexivity.
Qed.

Lemma bold_unanchored : unanchored m_bold.
Proof. intros b1 b2 s. reflexivity. Qed.

Lemma italic_unanchored : unanchored m_italic.
Proof. intros b1 b2 s. reflexivity. Qed.

Lemma bold_starts : starts_with (lit "*") m_bold.
Proof.
  intros b s H. unfold m_bold. destruct s as [|c r]; [reflexivity|].
  cbn [lit list_ascii_of_string startswith] in *.
  rewrite andb_true_r in H. rewrite H. reflexivity.
Qed.

Lemma italic_starts : starts_with (lit "*") m_italic.
Proof. intros b s H. unfold m_italic. rewrite H. reflexivity. Qed.

End ReMore.

(** ** The markup normaliser *)

Module MarkupMore.

Import Re Markup Shape PyFacts ReFacts MarkupFacts ReMore.

Lemma star_free_app a b :
  star_free (a ++ b) = star_free a && star_free b.
Proof. apply forallb_app. Qed.

Lemma bold_match x b :
  star_free x = true -> one_line x = true ->
  m_bold true ((lit "**" ++ x ++ lit "**") ++ b)
  = Some (length (lit "**" ++ x ++ lit "**"),
          lit "<strong>" ++ x ++ lit "</strong>").
Proof.
  intros Hx Hl.
  pose proof (find_lazy_stretch "*"%char ["*"%char] false x b Hx (or_intror Hl))
    as F.
  unfold m_bold. rewrite <- !app_assoc. rewrite startswith_app.
  change (drop 2 (lit "**" ++ x ++ lit "**" ++ b)) with (x ++ lit "**" ++ b).
  change (lit "**") with ["*"%char; "*"%char] at 1 2.
  rewrite F, take_app_length. f_equal. f_equal.
  rewrite !length_app. simpl. lia.
Qed.

Lemma italic_match x b :
  star_free x = true -> one_line x = true ->
  m_italic true ((lit "*" ++ x ++ lit "*") ++ b)
  = Some (length (lit "*" ++ x ++ lit "*"), lit "<em>" ++ x ++ lit "</em>").
Proof.
  intros Hx Hl.
  pose proof (find_lazy_stretch "*"%char [] false x b Hx (or_intror Hl)) as F.
  unfold m_italic. rewrite <- !app_assoc. rewrite startswith_app.
  change (drop 1 (lit "*" ++ x ++ lit "*" ++ b)) with (x ++ lit "*" ++ b).
  change (lit "*") with ["*"%char] at 1 2.
  rewrite F, take_app_length. f_equal. f_equal.
  rewrite !length_app. simpl. lia.
Qed.

(** A span between double asterisks becomes strong emphasis, a span
    between single asterisks emphasis, and the conversion goes on behind
    the span.  The bold pass runs first, so that a double asterisk is
    not read as an empty italic span. *)
Theorem emphasis_spans (a x b : str) :
  star_free a = true -> star_free x = true -> one_line x = true ->
  emphasis (a ++ lit "**" ++ x ++ lit "**" ++ b)
  = a ++ lit "<strong>" ++ x ++ lit "</strong>" ++ emphasis b
  /\ (x <> [] -> startswith (lit "*") b = false ->
      emphasis (a ++ lit "*" ++ x ++ lit "*" ++ b)
      = a ++ lit "<em>" ++ x ++ lit "</em>" ++ emphasis b).
Proof.
  intros Ha Hx Hl. unfold emphasis, sub. split.
  - rewrite (sub_from_stretch m_bold "*"%char [] a _ true bold_starts
               bold_unanchored Ha).
    replace (lit "**" ++ x ++ lit "**" ++ b)
      with ((lit "**" ++ x ++ lit "**") ++ b) by (rewrite <- !app_assoc; reflexivity).
    rewrite (sub_from_match m_bold _ b true _ bold_unanchored)
      by (discriminate || apply bold_match; assumption).
    replace (a ++ (lit "<strong>" ++ x ++ lit "</strong>") ++ sub_from m_bold true 0 b)
      with ((a ++ lit "<strong>" ++ x ++ lit "</strong>") ++ sub_from m_bold true 0 b)
      by (rewrite <- !app_assoc; reflexivity).
    rewrite (sub_from_stretch m_italic "*"%char [] _ _ true italic_starts
               italic_unanchored).
    + rewrite <- !app_assoc. reflexivity.
    + fold (star_free (a ++ lit "<strong>" ++ x ++ lit "</strong>")).
      rewrite !star_free_app, Ha, Hx. reflexivity.
  - intros Hne Hb.
    assert (Hbold : sub_from m_bold true 0 (a ++ lit "*" ++ x ++ lit "*" ++ b)
                    = (a ++ lit "*" ++ x ++ lit "*") ++ sub_from m_bold true 0 b).
    { rewrite (sub_from_stretch m_bold "*"%char [] a _ true bold_starts
                 bold_unanchored Ha).
      destruct x as [|c x]; [congruence|].
      unfold star_free in Hx. cbn [forallb] in Hx.
      apply andb_true_iff in Hx as [Hc Hx].
      apply negb_true_iff in Hc.
      cbn [lit list_ascii_of_string app].
      assert (H1 : m_bold true ("*"%char :: c :: x ++ "*"%char :: b) = None).
      { unfold m_bold. cbn [lit list_ascii_of_string startswith].
        rewrite Hc. rewrite andb_false_r. reflexivity. }
      rewrite (sub_from_miss m_bold true _ _ bold_unanchored H1).
      change (c :: x ++ "*"%char :: b) with ((c :: x) ++ "*"%char :: b).
      rewrite (sub_from_stretch m_bold "*"%char [] (c :: x) _ true bold_starts
                 bold_unanchored)
        by (cbn [forallb]; rewrite Hc; exact Hx).
      assert (H2 : m_bold true ("*"%char :: b) = None).
      { unfold m_bold. cbn [lit list_ascii_of_string startswith] in *.
        rewrite Hb. rewrite andb_false_r. reflexivity. }
      rewrite (sub_from_miss m_bold true _ _ bold_unanchored H2).
      rewrite <- ?app_assoc. cbn [app]. rewrite <- ?app_assoc. reflexivity. }
    rewrite Hbold. rewrite <- !app_assoc.
    rewrite (sub_from_stretch m_italic "*"%char [] a _ true italic_starts
               italic_unanchored Ha).
    replace (lit "*" ++ x ++ lit "*" ++ sub_from m_bold true 0 b)
      with ((lit "*" ++ x ++ lit "*") ++ sub_from m_bold true 0 b)
      by (rewrite <- !app_assoc; reflexivity).
    rewrite (sub_from_match m_italic _ _ true _ italic_unanchored)
      by (discriminate || apply italic_match; assumption).
    rewrite <- !app_assoc. reflexivity.
Qed.

Lemma emphasis_spans_witness :
  emphasis (lit "**bold** and *italic*")
  = lit "<strong>bold</strong> and <em>italic</em>".
Proof.
  change (lit "**bold** and *italic*")
    with ([] ++ lit "**" ++ lit "bold" ++ lit "**" ++ lit " and *italic*").
  rewrite (proj1 (emphasis_spans [] (lit "bold") (lit " and *italic*")
                    eq_refl eq_refl eq_refl)).
  change (lit " and *italic*")
    with (lit " and " ++ lit "*" ++ lit "italic" ++ lit "*" ++ []).
  rewrite (proj2 (emphasis_spans (lit " and ") (lit "italic") []
                    eq_refl eq_refl eq_refl)); [reflexivity|discriminate|reflexivity].
Defined.


(** *** What the output never holds *)

Lemma contains_app_r p x y : contains p y = true -> contains p (x ++ y) = true.
Proof.
  intros H. induction x as [|c x IH]; [exact H|].
  change ((c :: x) ++ y) with (c :: (x ++ y)). cbn [contains].
  rewrite IH. apply orb_true_r.
Qed.

Lemma startswith_app_l p x y :
  startswith p x = true -> startswith p (x ++ y) = true.
Proof.
  revert x. induction p as [|a p IH]; intros x H; [reflexivity|].
  destruct x as [|c x]; [discriminate|]. cbn [startswith app] in *.
  apply andb_true_iff in H as [Hc Hx]. rewrite Hc, IH by exact Hx. reflexivity.
Qed.

Lemma contains_app_l p x y :
  p <> [] -> contains p x = true -> contains p (x ++ y) = true.
Proof.
  intros Hp H. induction x as [|c x IH].
  - destruct p; [congruence|discriminate].
  - change ((c :: x) ++ y) with (c :: (x ++ y)). cbn [contains] in *.
    apply orb_true_iff in H as [H|H].
    + change (c :: x ++ y) with ((c :: x) ++ y).
      rewrite startswith_app_l by exact H. reflexivity.
    + rewrite IH by exact H. apply orb_true_r.
Qed.

Lemma contains_drop_while p q s :
  contains p (drop_while q s) = true -> contains p s = true.
Proof.
  intros H. rewrite <- (take_drop_while q s). apply contains_app_r, H.
Qed.

Lemma rstrip_prefix s : exists ws, s = rstrip s ++ ws.
Proof.
  unfold rstrip. exists (rev (take_while is_space (rev s))).
  rewrite <- rev_app_distr, take_drop_while, rev_involutive. reflexivity.
Qed.

Lemma contains_strip p s :
  p <> [] -> contains p (strip s) = true -> contains p s = true.
Proof.
  intros Hp H. unfold strip, lstrip in H.
  apply (contains_drop_while p is_space).
  destruct (rstrip_prefix (drop_while is_space s)) as [ws Hws].
  rewrite Hws. apply contains_app_l; assumption.
Qed.

Lemma contains_two_newlines c s :
  contains [nl; nl] (c :: s)
  = (ch_eqb nl c && startswith [nl] s) || contains [nl; nl] s.
Proof. reflexivity. Qed.

Lemma newlines_at b c r :
  m_newlines b (c :: r)
  = if ch_eqb nl c
    then Some (S (length (take_while (ch_eqb nl) r)), [nl])
    else None.
Proof.
  unfold m_newlines. cbn [take_while]. destruct (ch_eqb nl c); reflexivity.
Qed.

(** After the last substitution no two newlines follow each other. *)
Lemma newlines_collapsed s k b :
  contains [nl; nl] (sub_from m_newlines b k s) = false
  /\ (startswith [nl] (sub_from m_newlines b k s) = true ->
      startswith [nl] (drop k s) = true).
Proof.
  revert k b. induction s as [|c r IH]; intros k b.
  - split; [reflexivity|]. destruct k; discriminate.
  - cbn [sub_from]. destruct k as [|k]; [|exact (IH k _)].
    rewrite newlines_at. destruct (ch_eqb nl c) eqn:E.
    + cbn [Nat.sub app]. rewrite Nat.sub_0_r.
      destruct (IH (length (take_while (ch_eqb nl) r)) (ch_eqb c nl)) as [H1 H2].
      split.
      * rewrite contains_two_newlines, H1, orb_false_r.
        destruct (startswith [nl] (sub_from _ _ _ r)) eqn:Es;
          [|apply andb_false_r].
        specialize (H2 eq_refl). rewrite drop_take_while in H2.
        destruct (drop_while (ch_eqb nl) r) as [|d t] eqn:Ed; [discriminate|].
        apply drop_while_head in Ed. cbn [startswith] in H2.
        rewrite Ed in H2. discriminate.
      * intros _. cbn [drop startswith]. rewrite E. reflexivity.
    + destruct (IH 0 (ch_eqb c nl)) as [H1 H2]. split.
      * rewrite contains_two_newlines, E, H1. reflexivity.
      * cbn [startswith]. rewrite E. discriminate.
Qed.

(** The output of the normaliser has no white space at either end and
    no empty line. *)
Theorem output_is_trimmed_without_empty_lines (text : str) :
  strip (convert_to_markup text) = convert_to_markup text
  /\ contains [nl; nl] (convert_to_markup text) = false.
Proof.
  unfold convert_to_markup. destruct (falsy text); [split; reflexivity|].
  split; [apply strip_idemp|].
  destruct (contains [nl; nl] (strip _)) eqn:E; [|reflexivity].
  apply contains_strip in E; [|discriminate].
  unfold clean_up, sub in E.
  rewrite (proj1 (newlines_collapsed _ 0 true)) in E. discriminate.
Qed.


(** *** Where a pattern cannot occur *)

Lemma contains_miss p c r :
  startswith p (c :: r) = false -> contains p (c :: r) = contains p r.
Proof. intros H. cbn [contains]. rewrite H. reflexivity. Qed.

Lemma contains_stretch h p x y :
  lacks h x = true -> contains (h :: p) (x ++ y) = contains (h :: p) y.
Proof.
  induction x as [|c x IH]; intros Hx; [reflexivity|].
  unfold lacks in Hx. cbn [forallb] in Hx. apply andb_true_iff in Hx as [Hc Hx].
  apply negb_true_iff in Hc.
  change ((c :: x) ++ y) with (c :: (x ++ y)).
  rewrite contains_miss by (cbn [startswith]; rewrite Hc; reflexivity).
  apply IH, Hx.
Qed.

Lemma contains_absent h p x : lacks h x = true -> contains (h :: p) x = false.
Proof.
  intros H. rewrite <- (app_nil_r x), contains_stretch by exact H. reflexivity.
Qed.

(** An element: an opening tag, a content without [<], a closing tag.
    A pattern that starts with [<] can occur in it only at one of the
    two tags. *)
Lemma contains_element q open close l t :
  lacks "<"%char open = true -> lacks "<"%char close = true ->
  lacks "<"%char l = true ->
  startswith q (open ++ l ++ "<"%char :: close ++ t) = false ->
  startswith q (close ++ t) = false ->
  contains ("<"%char :: q) ("<"%char :: open ++ l ++ "<"%char :: close ++ t)
  = contains ("<"%char :: q) t.
Proof.
  intros Ho Hc Hl H1 H2.
  rewrite contains_miss by (cbn [startswith]; rewrite H1; reflexivity).
  rewrite contains_stretch by exact Ho.
  rewrite contains_stretch by exact Hl.
  rewrite contains_miss by (cbn [startswith]; rewrite H2; reflexivity).
  apply contains_stretch, Hc.
Qed.

(** The elements of a text, one on each line. *)
Lemma contains_joined p (f : str -> str) items tail :
  Forall (fun i => forall t, contains p (f i ++ t) = contains p t) items ->
  Forall (fun i => forall t, contains p (nl :: f i ++ t) = contains p (f i ++ t))
         items ->
  contains p (join_nl (map f items) ++ tail) = contains p tail.
Proof.
  intros Ha Hb. induction items as [|i items IH]; [reflexivity|].
  inversion Ha as [|? ? Hi Ha']; inversion Hb as [|? ? _ Hb']; subst.
  destruct items as [|i2 items]; [apply Hi|].
  change (join_nl (map f (i :: i2 :: items)))
    with (f i ++ nl :: join_nl (map f (i2 :: items))).
  rewrite <- app_assoc. rewrite Hi.
  change ((nl :: join_nl (map f (i2 :: items))) ++ tail)
    with (nl :: (join_nl (map f (i2 :: items)) ++ tail)).
  specialize (IH Ha' Hb').
  inversion Hb' as [|? ? Hi2 _]; subst.
  destruct items as [|i3 items].
  - cbn [map join_nl] in *. rewrite Hi2. exact IH.
  - change (join_nl (map f (i2 :: i3 :: items)))
      with (f i2 ++ nl :: join_nl (map f (i3 :: items))) in *.
    rewrite <- app_assoc in *. rewrite Hi2. exact IH.
Qed.


(** *** Plain words *)

Lemma ch_eqb_sym a b : ch_eqb a b = ch_eqb b a.
Proof. apply Ascii.eqb_sym. Qed.

Lemma plain_lacks l :
  forallb plain_char l = true ->
  lacks "*"%char l = true /\ lacks "<"%char l = true /\ lacks nl l = true
  /\ one_line l = true.
Proof.
  unfold lacks, one_line. induction l as [|c l IH]; intros H; [repeat split|].
  cbn [forallb] in *. apply andb_true_iff in H as [Hc Hl].
  destruct (IH Hl) as (H1 & H2 & H3 & H4). rewrite H1, H2, H3, H4.
  unfold plain_char in Hc. rewrite !andb_true_iff in Hc.
  destruct Hc as [[Ha Hb] Hn]. unfold not_nl.
  rewrite Ha, Hb, Hn, (ch_eqb_sym c nl), Hn. repeat split.
Qed.

Lemma words_parts l :
  words l = true ->
  (exists c r, l = c :: r) /\ forallb plain_char l = true
  /\ lstrip l = l /\ rstrip l = l.
Proof.
  unfold words. rewrite !andb_true_iff, !bool_decide_eq_true.
  intros [[[Hne Hp] Hl] Hr]. repeat split; try assumption.
  destruct l as [|c r]; [discriminate|eauto].
Qed.

Lemma startswith_head_false a p c r :
  ch_eqb a c = false -> startswith (a :: p) (c :: r) = false.
Proof. intros H. cbn [startswith]. rewrite H. reflexivity. Qed.

Lemma not_header_untouched l :
  startswith (lit "#") l = false -> startswith (lit "---") l = false ->
  convert_line l = l /\ bare_header l = false.
Proof.
  intros Hh Hr. destruct l as [|c r]; [split; reflexivity|].
  cbn [lit list_ascii_of_string startswith] in Hh. rewrite andb_true_r in Hh.
  assert (H3 : startswith (lit "###") (c :: r) = false)
    by apply (startswith_head_false "#"%char (lit "##")), Hh.
  assert (H2 : startswith (lit "##") (c :: r) = false)
    by apply (startswith_head_false "#"%char (lit "#")), Hh.
  assert (H1 : startswith (lit "#") (c :: r) = false)
    by apply (startswith_head_false "#"%char []), Hh.
  unfold convert_line, bare_header. cbn [existsb repeat].
  change (["#"; "#"; "#"]%char) with (lit "###").
  change (["#"; "#"]%char) with (lit "##").
  change (["#"]%char) with (lit "#").
  rewrite H3, H2, H1, Hr. split; reflexivity.
Qed.

Lemma star_free_emphasis l : lacks "*"%char l = true -> emphasis l = l.
Proof.
  intros H. unfold emphasis, sub.
  rewrite (sub_absent m_bold (lit "*") l true bold_starts)
    by (apply contains_absent, H).
  apply (sub_absent m_italic (lit "*") l true italic_starts), contains_absent, H.
Qed.

(** Steps 1 to 5 turn a paragraph line into a paragraph. *)
Lemma paragraph_through_step_5 l :
  paragraph_line l = true ->
  line_through_step_5 l = par l
  /\ one_line l = true /\ bare_header l = false.
Proof.
  unfold paragraph_line. rewrite !andb_true_iff, !negb_true_iff.
  intros [[[[[Hw Hh] Hr] Hd] Hn] Hq].
  destruct (words_parts l Hw) as ([c [r ->]] & Hp & Hls & Hrs).
  destruct (plain_lacks _ Hp) as (Hstar & Hlt & _ & Hline).
  destruct (not_header_untouched _ Hh Hr) as [Hc Hb].
  split; [|split; assumption].
  unfold line_through_step_5. rewrite Hc, star_free_emphasis by exact Hstar.
  unfold process_line. rewrite (strip_fix _ Hls Hrs). cbn [falsy].
  unfold lacks in Hlt. cbn [forallb] in Hlt. apply andb_true_iff in Hlt as [Hlt _].
  apply negb_true_iff in Hlt.
  assert (H1 : startswith (lit "<h") (c :: r) = false)
    by apply (startswith_head_false "<"%char (lit "h")), Hlt.
  assert (H2 : startswith (lit "<hr>") (c :: r) = false)
    by apply (startswith_head_false "<"%char (lit "hr>")), Hlt.
  rewrite H1, H2. cbn [andb]. rewrite Hd, Hn, Hq. reflexivity.
Qed.


(** *** Steps 6 and 7 where their patterns do not occur *)

Lemma li_group_starts : starts_with (lit "<li>") m_li_group.
Proof.
  intros b s H. unfold m_li_group. destruct s as [|c r]; [reflexivity|].
  cbn [length li_rounds]. unfold li_item. rewrite H. reflexivity.
Qed.

Lemma empty_p_starts : starts_with (lit "<p></p>") m_empty_p.
Proof. intros b s H. unfold m_empty_p. rewrite H. reflexivity. Qed.

Lemma br_starts : starts_with (lit "<br>") m_br.
Proof. intros b s H. unfold m_br. rewrite H. reflexivity. Qed.

Lemma newlines_absent s b :
  contains [nl; nl] s = false -> sub_from m_newlines b 0 s = s.
Proof.
  revert b. induction s as [|c r IH]; intros b H; [reflexivity|].
  rewrite contains_two_newlines in H. apply orb_false_iff in H as [H1 H2].
  cbn [sub_from]. rewrite newlines_at. destruct (ch_eqb nl c) eqn:E.
  - cbn [andb] in H1.
    assert (Hrun : take_while (ch_eqb nl) r = []).
    { destruct r as [|d r]; [reflexivity|]. cbn [startswith take_while] in *.
      rewrite andb_true_r in H1. rewrite H1. reflexivity. }
    rewrite Hrun. cbn [length Nat.sub app]. rewrite IH by exact H2.
    apply ch_eqb_eq in E. subst. reflexivity.
  - rewrite IH by exact H2. reflexivity.
Qed.

Lemma clean_up_absent t :
  contains (lit "<p></p>") t = false -> contains (lit "<br>") t = false ->
  contains [nl; nl] t = false -> clean_up t = t.
Proof.
  intros Hp Hb Hn. unfold clean_up, sub.
  rewrite (sub_absent m_empty_p _ t true empty_p_starts Hp).
  rewrite (sub_absent m_br _ t true br_starts Hb).
  apply newlines_absent, Hn.
Qed.

Lemma group_items_absent t :
  contains (lit "<li>") t = false -> group_items t = t.
Proof. intros H. apply (sub_absent m_li_group _ t true li_group_starts H). Qed.

(** *** Paragraphs *)

Lemma lacks_app h a b : lacks h (a ++ b) = lacks h a && lacks h b.
Proof. apply forallb_app. Qed.

Lemma par_shape l t :
  par l ++ t = "<"%char :: lit "p>" ++ l ++ "<"%char :: lit "/p>" ++ t.
Proof. unfold par. rewrite <- !app_assoc. reflexivity. Qed.

Lemma par_passed q l t :
  words l = true ->
  q = lit "li>" \/ q = lit "p></p>" \/ q = lit "br>" ->
  contains ("<"%char :: q) (par l ++ t) = contains ("<"%char :: q) t.
Proof.
  intros Hw Hq. destruct (words_parts l Hw) as ([c [r ->]] & Hp & _).
  destruct (plain_lacks _ Hp) as (_ & Hlt & _).
  rewrite par_shape. apply contains_element; try reflexivity; try exact Hlt.
  - destruct Hq as [->|[->| ->]]; try reflexivity.
    unfold lacks in Hlt. cbn [forallb] in Hlt.
    apply andb_true_iff in Hlt as [Hc _]. apply negb_true_iff in Hc.
    cbn [lit list_ascii_of_string app startswith].
    rewrite Hc. reflexivity.
  - destruct Hq as [->|[->| ->]]; reflexivity.
Qed.

Lemma par_no_newline l t :
  words l = true -> contains [nl; nl] (par l ++ t) = contains [nl; nl] t.
Proof.
  intros Hw. destruct (words_parts l Hw) as (_ & Hp & _).
  destruct (plain_lacks _ Hp) as (_ & _ & Hn & _).
  apply contains_stretch. unfold par. rewrite !lacks_app, Hn. reflexivity.
Qed.

Lemma pars_lack p lines :
  p = lit "<li>" \/ p = lit "<p></p>" \/ p = lit "<br>" \/ p = [nl; nl] ->
  Forall (fun l => words l = true) lines ->
  contains p (join_nl (map par lines)) = false.
Proof.
  intros Hp H. rewrite <- (app_nil_r (join_nl _)).
  rewrite contains_joined.
  - destruct Hp as [->|[->|[->| ->]]]; reflexivity.
  - eapply Forall_impl; [exact H|]. intros l Hl t.
    destruct Hp as [->|[->|[->| ->]]];
      try (apply par_passed; [exact Hl|tauto]).
    apply par_no_newline, Hl.
  - eapply Forall_impl; [exact H|]. intros l Hl t.
    apply contains_miss. rewrite par_shape.
    destruct Hp as [->|[->|[->| ->]]]; reflexivity.
Qed.

Lemma join_starts (f : str -> str) c i items :
  (forall x, exists r, f x = c :: r) ->
  exists r, join_nl (map f (i :: items)) = c :: r.
Proof.
  intros Hf. destruct (Hf i) as [r Hr]. destruct items as [|i2 items].
  - exists r. exact Hr.
  - change (join_nl (map f (i :: i2 :: items)))
      with (f i ++ nl :: join_nl (map f (i2 :: items))).
    rewrite Hr. eauto.
Qed.

Lemma endswith_app p x : endswith p (x ++ p) = true.
Proof. unfold endswith. rewrite rev_app_distr. apply startswith_app. Qed.

(** A text of plain lines becomes its paragraphs, one on each line.
    A plain line has words only (no asterisk, no [<], no white space at
    its ends) and starts like no header, rule, list item or quote. *)
Theorem plain_lines_become_paragraphs (lines : list str) :
  lines <> [] -> Forall (fun l => paragraph_line l = true) lines ->
  convert_to_markup (join_nl lines) = join_nl (map par lines).
Proof.
  intros Hne H.
  assert (Hw : Forall (fun l => words l = true) lines).
  { eapply Forall_impl; [exact H|]. intros l Hl. unfold paragraph_line in Hl.
    rewrite !andb_true_iff in Hl. tauto. }
  assert (H5 : through_step_5 (join_nl lines) = join_nl (map par lines)).
  { rewrite through_step_5_lines; [|exact Hne|].
    - f_equal. apply map_ext_Forall. eapply Forall_impl; [exact H|].
      intros l Hl. apply paragraph_through_step_5, Hl.
    - eapply Forall_impl; [exact H|]. intros l Hl.
      apply paragraph_through_step_5 in Hl. tauto. }
  unfold convert_to_markup.
  assert (Hfalsy : falsy (join_nl lines) = false).
  { destruct lines as [|l ls]; [congruence|]. inversion Hw; subst.
    destruct (words_parts l) as ([c [r ->]] & _); [assumption|].
    destruct ls; reflexivity. }
  rewrite Hfalsy.
  change (process_lines (emphasis (headers_and_rules (join_nl lines))))
    with (through_step_5 (join_nl lines)).
  rewrite H5, group_items_absent, clean_up_absent
    by (apply pars_lack; [tauto|exact Hw]).
  destruct lines as [|l ls]; [congruence|].
  apply strip_fix.
  - destruct (join_starts par "<"%char l ls) as [r ->];
      [intros x; unfold par; eauto|].
    apply lstrip_fix. reflexivity.
  - apply (rstrip_fix _ ">"%char); [|reflexivity].
    change (map par (l :: ls)) with (par l :: map par ls).
    apply endswith_join.
    clear. revert l. induction ls as [|l2 ls IH]; intros l; [|exact (IH l2)].
    cbn [map List.last]. unfold par.
    change (lit "</p>") with (lit "</p" ++ [">"%char]).
    rewrite !app_assoc. apply endswith_app.
Qed.

Lemma plain_lines_become_paragraphs_witness :
  let lines := [lit "Hello, world."; lit "2 + 2 = 4"] in
  lines <> []
  /\ Forall (fun l => paragraph_line l = true) lines
  /\ convert_to_markup (join_nl lines)
     = join_nl [lit "<p>Hello, world.</p>"; lit "<p>2 + 2 = 4</p>"].
Proof.
  intros lines.
  assert (Hne : lines <> []) by discriminate.
  assert (H : Forall (fun l => paragraph_line l = true) lines)
    by (repeat constructor).
  split; [exact Hne|]. split; [exact H|].
  exact (plain_lines_become_paragraphs lines Hne H).
Defined.


(** *** List lines *)

Lemma digit_facts c :
  is_digit c = true ->
  ch_eqb "#"%char c = false /\ ch_eqb "-"%char c = false
  /\ ch_eqb "<"%char c = false /\ ch_eqb "*"%char c = false
  /\ ch_eqb nl c = false /\ ch_eqb c nl = false /\ is_space c = false
  /\ bullet_char c = true.
Proof.
  destruct c as [[] [] [] [] [] [] [] []]; intros H; try discriminate H;
    repeat split.
Qed.

Lemma take_while_stop p x c r :
  forallb p x = true -> p c = false -> take_while p (x ++ c :: r) = x.
Proof.
  intros Hx Hc. induction x as [|d x IH]; cbn [app take_while].
  - rewrite Hc. reflexivity.
  - cbn [forallb] in Hx. apply andb_true_iff in Hx as [Hd Hx].
    rewrite Hd, IH by exact Hx. reflexivity.
Qed.

Lemma drop_while_stop p x c r :
  forallb p x = true -> p c = false -> drop_while p (x ++ c :: r) = c :: r.
Proof.
  intros Hx Hc. rewrite drop_while_all by exact Hx. apply drop_while_fix, Hc.
Qed.

Lemma rstrip_app_fix x y : y <> [] -> rstrip y = y -> rstrip (x ++ y) = x ++ y.
Proof.
  intros Hne Hy. unfold rstrip in *. rewrite rev_app_distr.
  assert (Hr : drop_while is_space (rev y) = rev y).
  { rewrite <- Hy at 2. rewrite rev_involutive. reflexivity. }
  rewrite drop_while_app_keep.
  - rewrite Hr, <- rev_app_distr. apply rev_involutive.
  - rewrite Hr. intros E. apply (f_equal (@rev ascii)) in E.
    rewrite rev_involutive in E. exact (Hne E).
Qed.

Lemma forallb_impl (p q : ascii -> bool) x :
  (forall c, p c = true -> q c = true) -> forallb p x = true -> forallb q x = true.
Proof.
  intros Hpq. induction x as [|c x IH]; [reflexivity|]. cbn [forallb].
  intros H. apply andb_true_iff in H as [Hc Hx]. rewrite (Hpq _ Hc), IH by exact Hx.
  reflexivity.
Qed.

(** What steps 1 to 5 need of a list line. *)
Lemma list_line_through_step_5 mi :
  list_line_ok mi = true ->
  line_through_step_5 (list_line mi) = li mi.2
  /\ one_line (list_line mi) = true /\ bare_header (list_line mi) = false.
Proof.
  destruct mi as [m item]. unfold list_line_ok, list_line. cbn [fst snd].
  intros H. apply andb_true_iff in H as [Hm Hw].
  destruct (words_parts item Hw) as ([c [r Hitem]] & Hp & Hls & Hrs).
  destruct (plain_lacks _ Hp) as (Hstar & _ & _ & Hline).
  assert (Hne : item <> []) by (rewrite Hitem; discriminate).
  destruct m as [|ds].
  - (* a dash *)
    assert (Hsp : drop_while is_space item = item) by exact Hls.
    assert (Hstrip : strip (marker_text Dash ++ item) = marker_text Dash ++ item).
    { apply strip_fix; [reflexivity|]. apply rstrip_app_fix; assumption. }
    split; [|split].
    + unfold line_through_step_5.
      change (convert_line (marker_text Dash ++ item))
        with (marker_text Dash ++ item).
      rewrite star_free_emphasis
        by (unfold marker_text; rewrite lacks_app, Hstar; reflexivity).
      unfold process_line. rewrite Hstrip.
      change (marker_text Dash ++ item) with ("-"%char :: " "%char :: item).
      assert (Hbullet : strip_bullet ("-"%char :: " "%char :: item) = item).
      { unfold strip_bullet.
        change (take_while bullet_char ("-"%char :: " "%char :: item))
          with ["-"%char].
        change (drop_while bullet_char ("-"%char :: " "%char :: item))
          with (" "%char :: item).
        change (drop_while is_space (" "%char :: item))
          with (drop_while is_space item).
        exact Hsp. }
      rewrite Hbullet. cbn [falsy].
      assert (H1 : startswith (lit "<h") ("-"%char :: " "%char :: item) = false)
        by reflexivity.
      assert (H2 : startswith (lit "<hr>") ("-"%char :: " "%char :: item) = false)
        by reflexivity.
      assert (H3 : startswith (lit "- ") ("-"%char :: " "%char :: item) = true)
        by reflexivity.
      rewrite H1, H2, H3. reflexivity.
    + unfold one_line in *. unfold marker_text. rewrite forallb_app, Hline.
      reflexivity.
    + reflexivity.
  - (* a number *)
    cbn [marker_ok] in Hm. apply andb_true_iff in Hm as [Hd Hds].
    destruct ds as [|d ds]; [discriminate|]. clear Hd.
    pose proof Hds as Hall. cbn [forallb] in Hds.
    apply andb_true_iff in Hds as [Hd Hds].
    destruct (digit_facts d Hd) as (Hh & Hdash & Hlt & Hst & Hnl & Hnl' & Hspace & _).
    set (line := marker_text (Number (d :: ds)) ++ item).
    assert (Hshape : line = (d :: ds) ++ "."%char :: " "%char :: item).
    { unfold line, marker_text. rewrite <- app_assoc. reflexivity. }
    assert (Hshape' : line = ((d :: ds) ++ ["."%char]) ++ " "%char :: item).
    { rewrite Hshape, <- app_assoc. reflexivity. }
    assert (Hhead : exists t, line = d :: t) by (rewrite Hshape; eauto).
    destruct Hhead as [t Ht].
    assert (Hstrip : strip line = line).
    { apply strip_fix.
      - rewrite Ht. apply lstrip_fix, Hspace.
      - unfold line. apply rstrip_app_fix; assumption. }
    assert (Hconv : convert_line line = line /\ bare_header line = false).
    { apply not_header_untouched; rewrite Ht.
      - apply (startswith_head_false "#"%char []), Hh.
      - apply (startswith_head_false "-"%char (lit "--")), Hdash. }
    assert (Hstars : lacks "*"%char line = true).
    { unfold line, marker_text. rewrite !lacks_app, Hstar, andb_true_r.
      rewrite andb_true_r. apply (forallb_impl is_digit); [|exact Hall].
      intros c' Hc. destruct (digit_facts c' Hc) as (_ & _ & _ & -> & _).
      reflexivity. }
    assert (Hlines : one_line line = true).
    { unfold line, marker_text, one_line in *. rewrite !forallb_app, Hline.
      rewrite andb_true_r, andb_true_r. apply (forallb_impl is_digit); [|exact Hall].
      intros c' Hc. destruct (digit_facts c' Hc) as (_ & _ & _ & _ & _ & E & _).
      unfold not_nl. rewrite E. reflexivity. }
    split; [|split; [exact Hlines|apply Hconv]].
    unfold line_through_step_5. destruct Hconv as [-> _].
    rewrite star_free_emphasis by exact Hstars.
    unfold process_line. rewrite Hstrip.
    assert (Hnum : match_numbered line = true).
    { unfold match_numbered. rewrite Hshape.
      rewrite take_while_stop by (exact Hall || reflexivity).
      rewrite drop_app_length. reflexivity. }
    assert (Hb : forallb bullet_char ((d :: ds) ++ ["."%char]) = true).
    { rewrite forallb_app. apply andb_true_iff. split; [|reflexivity].
      apply (forallb_impl is_digit); [|exact Hall].
      intros c' Hc. apply digit_facts in Hc. tauto. }
    assert (Hbullet : strip_bullet line = item).
    { unfold strip_bullet. rewrite Hshape'.
      rewrite take_while_stop, drop_while_stop by (exact Hb || reflexivity).
      destruct ds; exact Hls. }
    rewrite Hnum, Hbullet, orb_true_r. rewrite Ht.
    assert (H1 : startswith (lit "<h") (d :: t) = false)
      by apply (startswith_head_false "<"%char (lit "h")), Hlt.
    assert (H2 : startswith (lit "<hr>") (d :: t) = false)
      by apply (startswith_head_false "<"%char (lit "hr>")), Hlt.
    rewrite H1, H2. reflexivity.
Qed.


(** *** Step 6 on a run of list items *)

Lemma li_group_unanchored : unanchored m_li_group.
Proof. intros b1 b2 s. reflexivity. Qed.

Lemma li_shape l t :
  li l ++ t = "<"%char :: lit "li>" ++ l ++ "<"%char :: lit "/li>" ++ t.
Proof. unfold li. rewrite <- !app_assoc. reflexivity. Qed.

Lemma length_li l : length (li l) = 4 + length l + 5.
Proof. unfold li. rewrite !length_app. simpl. lia. Qed.

Lemma li_item_at l t :
  lacks "<"%char l = true ->
  li_item (li l ++ t)
  = Some (if startswith [nl] t then S (length (li l)) else length (li l)).
Proof.
  intros Hl.
  assert (F : find_lazy (lit "</li>") true (l ++ lit "</li>" ++ t)
              = Some (length l))
    by exact (find_lazy_stretch "<"%char (lit "/li>") true l t Hl
                (or_introl eq_refl)).
  unfold li_item.
  assert (Hs : startswith (lit "<li>") (li l ++ t) = true).
  { unfold li. rewrite <- !app_assoc. apply startswith_app. }
  rewrite Hs.
  assert (Hd : drop 4 (li l ++ t) = l ++ lit "</li>" ++ t).
  { unfold li. rewrite <- !app_assoc. reflexivity. }
  rewrite Hd, F. rewrite <- length_li.
  rewrite drop_app_length. reflexivity.
Qed.

Lemma li_rounds_items items fuel :
  Forall (fun l => lacks "<"%char l = true) items ->
  length (join_nl (map li items)) <= fuel ->
  li_rounds fuel (join_nl (map li items)) = length (join_nl (map li items)).
Proof.
  intros H. revert fuel. induction H as [|i items Hi Hitems IH]; intros fuel Hf.
  - destruct fuel; reflexivity.
  - destruct items as [|i2 items].
    + cbn [map join_nl] in *. destruct fuel as [|f].
      { rewrite length_li in Hf. lia. }
      cbn [li_rounds]. rewrite <- (app_nil_r (li i)) at 1.
      rewrite li_item_at by exact Hi. cbn [startswith].
      rewrite drop_all. destruct f; cbn [li_rounds li_item]; simpl; lia.
    + change (join_nl (map li (i :: i2 :: items)))
        with (li i ++ nl :: join_nl (map li (i2 :: items))) in *.
      set (J := join_nl (map li (i2 :: items))) in *.
      rewrite length_app in Hf. cbn [length] in Hf.
      destruct fuel as [|f]; [lia|].
      cbn [li_rounds]. rewrite li_item_at by exact Hi.
      change (startswith [nl] (nl :: J)) with true. cbn match.
      assert (Hd : drop (S (length (li i))) (li i ++ nl :: J) = J).
      { change (nl :: J) with ([nl] ++ J). rewrite app_assoc.
        apply drop_app_length'. rewrite length_app. simpl. lia. }
      rewrite Hd, IH by lia. rewrite length_app. simpl. lia.
Qed.

Lemma group_items_list items :
  items <> [] -> Forall (fun l => lacks "<"%char l = true) items ->
  group_items (join_nl (map li items)) = ul (join_nl (map li items)).
Proof.
  intros Hne H. unfold group_items, sub.
  set (T := join_nl (map li items)).
  assert (HT : exists c r, T = c :: r).
  { destruct items as [|i items]; [congruence|].
    destruct (join_starts li "<"%char i items) as [r Hr];
      [intros x; unfold li; eauto|]. unfold T. rewrite Hr. eauto. }
  assert (Hm : m_li_group true (T ++ []) = Some (length T, ul T)).
  { unfold m_li_group. rewrite app_nil_r.
    assert (Hr : li_rounds (length T) T = length T)
      by (apply li_rounds_items; [exact H|apply Nat.le_refl]).
    rewrite Hr. destruct HT as (c & r & HT).
    assert (Hlen : length T = S (length r)) by (rewrite HT; reflexivity).
    rewrite Hlen. cbn match. rewrite <- Hlen.
    rewrite take_ge by lia. reflexivity. }
  rewrite <- (app_nil_r T) at 1.
  rewrite (sub_from_match m_li_group T [] true (ul T) li_group_unanchored).
  - apply app_nil_r.
  - destruct HT as (c & r & ->). discriminate.
  - exact Hm.
Qed.

(** *** Step 7 on a list *)

Lemma li_passed q l t :
  lacks "<"%char l = true -> q = lit "p></p>" \/ q = lit "br>" ->
  contains ("<"%char :: q) (li l ++ t) = contains ("<"%char :: q) t.
Proof.
  intros Hl Hq. rewrite li_shape.
  apply contains_element; try reflexivity; try exact Hl;
    destruct Hq as [->| ->]; reflexivity.
Qed.

Lemma ul_shape body :
  ul body
  = ("<"%char :: lit "ul class=" ++ dquote :: lit "list-unstyled" ++ dquote ::
     lit ">") ++ nl :: body ++ lit "</ul>".
Proof. reflexivity. Qed.

Lemma ul_lacks p items :
  p = lit "<p></p>" \/ p = lit "<br>" \/ p = [nl; nl] ->
  items <> [] -> Forall (fun l => words l = true) items ->
  contains p (ul (join_nl (map li items))) = false.
Proof.
  intros Hp Hne H.
  assert (Hl : Forall (fun l => lacks "<"%char l = true /\ lacks nl l = true) items).
  { eapply Forall_impl; [exact H|]. intros l Hw.
    apply words_parts in Hw as (_ & Hw & _). apply plain_lacks in Hw. tauto. }
  rewrite ul_shape. destruct Hp as [->|[->| ->]].
  - change (lit "<p></p>") with ("<"%char :: lit "p></p>").
    change (("<"%char :: ?x) ++ ?y) with ("<"%char :: (x ++ y)).
    rewrite contains_miss by reflexivity.
    rewrite (contains_stretch "<"%char) by reflexivity.
    rewrite contains_miss by reflexivity.
    rewrite contains_joined; [reflexivity| |].
    + eapply Forall_impl; [exact Hl|]. intros l [Hlt _] t.
      apply li_passed; tauto.
    + eapply Forall_impl; [exact Hl|]. intros l _ t.
      apply contains_miss. reflexivity.
  - change (lit "<br>") with ("<"%char :: lit "br>").
    change (("<"%char :: ?x) ++ ?y) with ("<"%char :: (x ++ y)).
    rewrite contains_miss by reflexivity.
    rewrite (contains_stretch "<"%char) by reflexivity.
    rewrite contains_miss by reflexivity.
    rewrite contains_joined; [reflexivity| |].
    + eapply Forall_impl; [exact Hl|]. intros l [Hlt _] t.
      apply li_passed; tauto.
    + eapply Forall_impl; [exact Hl|]. intros l _ t.
      apply contains_miss. reflexivity.
  - rewrite (contains_stretch nl) by reflexivity.
    rewrite contains_miss.
    2:{ destruct items as [|i items]; [congruence|].
        destruct (join_starts li "<"%char i items) as [r ->];
          [intros x; unfold li; eauto|reflexivity]. }
    rewrite contains_joined; [reflexivity| |].
    + eapply Forall_impl; [exact Hl|]. intros l [_ Hn] t.
      apply contains_stretch. unfold li. rewrite !lacks_app, Hn. reflexivity.
    + eapply Forall_impl; [exact Hl|]. intros l _ t.
      apply contains_miss. rewrite li_shape. reflexivity.
Qed.

(** A text of list lines, each a dash or a number with its dot, a space
    and plain words, becomes one unstyled list with an item for each
    line; the dashes and numbers are dropped. *)
Theorem list_lines_become_one_list (items : list (marker * str)) :
  items <> [] -> Forall (fun mi => list_line_ok mi = true) items ->
  convert_to_markup (join_nl (map list_line items))
  = ul (join_nl (map li (map snd items))).
Proof.
  intros Hne H.
  assert (Hw : Forall (fun l => words l = true) (map snd items)).
  { apply Forall_map. eapply Forall_impl; [exact H|]. intros mi Hmi.
    unfold list_line_ok in Hmi. apply andb_true_iff in Hmi. tauto. }
  assert (Hlt : Forall (fun l => lacks "<"%char l = true) (map snd items)).
  { eapply Forall_impl; [exact Hw|]. intros l Hl.
    apply words_parts in Hl as (_ & Hl & _). apply plain_lacks in Hl. tauto. }
  assert (Hne' : map snd items <> []) by (destruct items; [congruence|discriminate]).
  assert (H5 : through_step_5 (join_nl (map list_line items))
               = join_nl (map li (map snd items))).
  { rewrite through_step_5_lines.
    - rewrite !map_map. f_equal. apply map_ext_Forall.
      eapply Forall_impl; [exact H|]. intros mi Hmi.
      apply list_line_through_step_5, Hmi.
    - destruct items; [congruence|discriminate].
    - apply Forall_map. eapply Forall_impl; [exact H|]. intros mi Hmi.
      apply list_line_through_step_5 in Hmi. tauto. }
  unfold convert_to_markup.
  assert (Hfalsy : falsy (join_nl (map list_line items)) = false).
  { destruct items as [|[m i] items]; [congruence|]. inversion H; subst.
    assert (Hc : exists c r, list_line (m, i) = c :: r).
    { unfold list_line_ok in *. cbn [fst snd] in *.
      destruct m as [|[|d ds]]; unfold list_line; cbn; eauto. }
    destruct Hc as (c & r & Hc). cbn [map]. rewrite Hc.
    destruct (map list_line items); reflexivity. }
  rewrite Hfalsy.
  change (process_lines (emphasis (headers_and_rules ?x)))
    with (through_step_5 x).
  rewrite H5, group_items_list by assumption.
  rewrite clean_up_absent by (apply ul_lacks; (tauto || assumption)).
  apply strip_fix.
  - apply lstrip_fix. reflexivity.
  - apply (rstrip_fix _ ">"%char); [|reflexivity].
    unfold ul. change (lit "</ul>") with (lit "</ul" ++ [">"%char]).
    set (body := join_nl _). 
    replace (lit "<ul class=" ++ dquote :: lit "list-unstyled" ++ dquote ::
             lit ">" ++ nl :: body ++ lit "</ul" ++ [">"%char])
      with ((lit "<ul class=" ++ dquote :: lit "list-unstyled" ++ dquote ::
             lit ">" ++ nl :: body ++ lit "</ul") ++ [">"%char]).
    + apply endswith_app.
    + cbn [lit list_ascii_of_string app]. rewrite <- app_assoc. reflexivity.
Qed.

Lemma list_lines_become_one_list_witness :
  let items := [(Dash, lit "apples"); (Number (lit "12"), lit "pears, 3 kg");
                (Dash, lit "-1.5 degrees")] in
  items <> []
  /\ Forall (fun mi => list_line_ok mi = true) items
  /\ convert_to_markup
       (join_nl [lit "- apples"; lit "12. pears, 3 kg"; lit "- -1.5 degrees"])
     = ul (join_nl [lit "<li>apples</li>"; lit "<li>pears, 3 kg</li>";
                    lit "<li>-1.5 degrees</li>"]).
Proof.
  intros items.
  assert (Hne : items <> []) by discriminate.
  assert (H : Forall (fun mi => list_line_ok mi = true) items)
    by (repeat constructor).
  split; [exact Hne|]. split; [exact H|].
  exact (list_lines_become_one_list items Hne H).
Defined.

(** *** Blank lines *)

Lemma br_unanchored : unanchored m_br.
Proof. intros b1 b2 s. reflexivity. Qed.

Lemma join_blank (a b : str) n :
  join_nl (a :: repeat ([] : str) n ++ [b]) = a ++ repeat nl (S n) ++ b.
Proof.
  revert a. induction n as [|n IH]; intros a; [reflexivity|].
  change (join_nl (a :: repeat ([] : str) (S n) ++ [b]))
    with (a ++ nl :: join_nl ([] :: repeat ([] : str) n ++ [b])).
  rewrite IH. reflexivity.
Qed.

Lemma join_breaks (x y : str) n :
  join_nl (x :: repeat BR n ++ [y]) = x ++ nl :: breaks n ++ y.
Proof.
  revert x. induction n as [|n IH]; intros x; [reflexivity|].
  change (join_nl (x :: repeat BR (S n) ++ [y]))
    with (x ++ nl :: join_nl (BR :: repeat BR n ++ [y])).
  rewrite IH. reflexivity.
Qed.

Lemma paragraph_words l : paragraph_line l = true -> words l = true.
Proof. unfold paragraph_line. rewrite !andb_true_iff. tauto. Qed.

Lemma blank_through_step_5 a b n :
  paragraph_line a = true -> paragraph_line b = true ->
  through_step_5 (a ++ repeat nl (S n) ++ b) = par a ++ nl :: breaks n ++ par b.
Proof.
  intros Ha Hb. rewrite <- join_blank.
  destruct (paragraph_through_step_5 a Ha) as (Ha5 & Ha1 & Ha2).
  destruct (paragraph_through_step_5 b Hb) as (Hb5 & Hb1 & Hb2).
  rewrite through_step_5_lines.
  - cbn [map]. rewrite map_app, Ha5. cbn [map]. rewrite Hb5, map_repeat.
    change (line_through_step_5 []) with BR. apply join_breaks.
  - discriminate.
  - constructor; [tauto|]. apply Forall_app. split.
    + induction n as [|n IH]; cbn [repeat]; constructor;
        [split; reflexivity|exact IH].
    + constructor; [tauto|constructor].
Qed.

Lemma breaks_passed q k t :
  q = lit "li>" \/ q = lit "p></p>" ->
  contains ("<"%char :: q) (breaks k ++ t) = contains ("<"%char :: q) t.
Proof.
  intros Hq. induction k as [|k IH]; [reflexivity|].
  change (breaks (S k) ++ t)
    with ("<"%char :: (lit "br>" ++ [nl]) ++ breaks k ++ t).
  rewrite contains_miss by (destruct Hq as [->| ->]; reflexivity).
  rewrite contains_stretch by reflexivity. exact IH.
Qed.

Lemma breaks_no_empty_line k b :
  words b = true -> contains [nl; nl] (nl :: breaks k ++ par b) = false.
Proof.
  intros Hw. induction k as [|k IH].
  - rewrite contains_miss by reflexivity.
    apply (pars_lack [nl; nl] [b]); [tauto|]. constructor; [exact Hw|constructor].
  - rewrite contains_miss by reflexivity.
    change (breaks (S k) ++ par b) with (lit "<br>" ++ nl :: breaks k ++ par b).
    rewrite contains_stretch by reflexivity. exact IH.
Qed.

Lemma blank_lacks p a b k :
  p = lit "<li>" \/ p = lit "<p></p>" \/ p = [nl; nl] ->
  words a = true -> words b = true ->
  contains p (par a ++ nl :: breaks k ++ par b) = false.
Proof.
  intros Hp Ha Hb.
  assert (Hone : forall q, q = lit "li>" \/ q = lit "p></p>" ->
                 contains ("<"%char :: q) (par a ++ nl :: breaks k ++ par b)
                 = false).
  { intros q Hq. rewrite par_passed by tauto.
    rewrite contains_miss by (destruct Hq as [->| ->]; reflexivity).
    rewrite breaks_passed by exact Hq.
    apply (pars_lack ("<"%char :: q) [b]).
    - destruct Hq as [->| ->]; tauto.
    - constructor; [exact Hb|constructor]. }
  destruct Hp as [->|[->| ->]].
  - apply (Hone (lit "li>")). tauto.
  - apply (Hone (lit "p></p>")). tauto.
  - rewrite par_no_newline by exact Ha. apply breaks_no_empty_line, Hb.
Qed.

(** The pattern of the duplicate breaks passes a paragraph. *)
Lemma br_passes_par l t b :
  words l = true ->
  sub_from m_br b 0 (par l ++ t) = par l ++ sub_from m_br b 0 t.
Proof.
  intros Hw. destruct (words_parts l Hw) as (_ & Hp & _).
  destruct (plain_lacks _ Hp) as (_ & Hlt & _).
  rewrite !par_shape.
  rewrite sub_from_miss by (exact br_unanchored || reflexivity).
  rewrite (sub_from_stretch m_br "<"%char (lit "br>") (lit "p>"))
    by (exact br_starts || exact br_unanchored || reflexivity).
  rewrite (sub_from_stretch m_br "<"%char (lit "br>") l)
    by (exact br_starts || exact br_unanchored || exact Hlt).
  rewrite sub_from_miss by (exact br_unanchored || reflexivity).
  rewrite (sub_from_stretch m_br "<"%char (lit "br>") (lit "/p>"))
    by (exact br_starts || exact br_unanchored || reflexivity).
  reflexivity.
Qed.

(** The pattern takes the breaks two by two, and leaves one of each
    pair; a break left over at the end stays. *)
Lemma br_pairs b n b0 :
  words b = true ->
  sub_from m_br b0 0 (breaks n ++ par b) = breaks (Nat.div2 (S n)) ++ par b.
Proof.
  intros Hw.
  assert (H0 : sub_from m_br b0 0 (par b) = par b).
  { rewrite <- (app_nil_r (par b)) at 1. rewrite br_passes_par by exact Hw.
    apply app_nil_r. }
  enough (H : sub_from m_br b0 0 (breaks n ++ par b)
              = breaks (Nat.div2 (S n)) ++ par b
              /\ sub_from m_br b0 0 (breaks (S n) ++ par b)
                 = breaks (Nat.div2 (S (S n))) ++ par b) by apply H.
  induction n as [|n [IH1 IH2]].
  - split; [exact H0|].
    change (breaks 1 ++ par b) with ("<"%char :: (lit "br>" ++ [nl]) ++ par b).
    rewrite sub_from_miss by (exact br_unanchored || reflexivity).
    rewrite (sub_from_stretch m_br "<"%char (lit "br>") (lit "br>" ++ [nl]))
      by (exact br_starts || exact br_unanchored || reflexivity).
    rewrite H0. reflexivity.
  - split; [exact IH2|].
    change (breaks (S (S n)) ++ par b)
      with ((lit "<br>" ++ nl :: lit "<br>") ++ nl :: breaks n ++ par b).
    rewrite (sub_from_match m_br _ _ _ (lit "<br>"))
      by (exact br_unanchored || discriminate || reflexivity).
    rewrite sub_from_miss by (exact br_unanchored || reflexivity).
    rewrite IH1. reflexivity.
Qed.

Lemma endswith_last c x y :
  endswith [c] y = true -> endswith [c] (x ++ y) = true.
Proof.
  unfold endswith. rewrite rev_app_distr. cbn [rev app].
  destruct (rev y) as [|d t]; [discriminate|]. intros H. exact H.
Qed.

Lemma par_ends l : endswith [">"%char] (par l) = true.
Proof.
  unfold par. rewrite app_assoc. apply endswith_last. reflexivity.
Qed.

(** Between two plain lines, [n] blank lines leave a break marker for
    every two of them, and one more for an odd one left over: the pattern
    that removes duplicate breaks is applied once, from the left, to
    pairs that do not overlap.  So one or two blank lines leave one
    marker, three or four leave two. *)
Theorem blank_lines_halve (a b : str) (n : nat) :
  paragraph_line a = true -> paragraph_line b = true ->
  convert_to_markup (a ++ repeat nl (S n) ++ b)
  = par a ++ nl :: breaks (Nat.div2 (S n)) ++ par b.
Proof.
  intros Ha Hb.
  pose proof (paragraph_words a Ha) as Hwa.
  pose proof (paragraph_words b Hb) as Hwb.
  assert (Hfalsy : falsy (a ++ repeat nl (S n) ++ b) = false).
  { destruct (words_parts a Hwa) as ([c [r ->]] & _). reflexivity. }
  unfold convert_to_markup. rewrite Hfalsy.
  change (process_lines (emphasis (headers_and_rules (a ++ repeat nl (S n) ++ b))))
    with (through_step_5 (a ++ repeat nl (S n) ++ b)).
  rewrite blank_through_step_5 by assumption.
  rewrite group_items_absent by (apply blank_lacks; [tauto|assumption..]).
  unfold clean_up, sub.
  rewrite (sub_absent m_empty_p (lit "<p></p>") _ true empty_p_starts)
    by (apply blank_lacks; [tauto|assumption..]).
  rewrite br_passes_par by exact Hwa.
  rewrite sub_from_miss by (exact br_unanchored || reflexivity).
  rewrite br_pairs by exact Hwb.
  rewrite newlines_absent by (apply blank_lacks; [tauto|assumption..]).
  apply strip_fix.
  - apply (lstrip_fix "<"%char). reflexivity.
  - apply (rstrip_fix _ ">"%char); [|reflexivity].
    apply endswith_last, (endswith_last _ (nl :: breaks (Nat.div2 (S n)))).
    apply par_ends.
Qed.

Lemma blank_lines_halve_witness :
  paragraph_line (lit "Hello") = true
  /\ paragraph_line (lit "world") = true
  /\ convert_to_markup (lit "Hello" ++ repeat nl 6 ++ lit "world")
     = join_nl [lit "<p>Hello</p>"; lit "<br>"; lit "<br>"; lit "<br>";
                lit "<p>world</p>"].
Proof.
  split; [reflexivity|]. split; [reflexivity|].
  exact (blank_lines_halve (lit "Hello") (lit "world") 5 eq_refl eq_refl).
Defined.


(** *** Quote lines *)

Lemma quote_shape l t :
  quote l ++ t
  = "<"%char :: quote_open ++ par l ++ "<"%char :: lit "/blockquote>" ++ t.
Proof.
  unfold quote, par.
  change (lit "<blockquote class=" ++ dquote :: lit "blockquote" ++ dquote ::
          lit "><p>" ++ l ++ lit "</p></blockquote>")
    with (("<"%char :: quote_open) ++ lit "<p>" ++ l ++
          lit "</p>" ++ "<"%char :: lit "/blockquote>").
  rewrite <- !app_assoc. reflexivity.
Qed.

Lemma quote_passed p l t :
  p = lit "<li>" \/ p = lit "<p></p>" \/ p = lit "<br>" \/ p = [nl; nl] ->
  words l = true ->
  contains p (quote l ++ t) = contains p t.
Proof.
  intros Hp Hw. rewrite quote_shape.
  rewrite contains_miss by (destruct Hp as [->|[->|[->| ->]]]; reflexivity).
  destruct Hp as [->|[->|[->| ->]]].
  - change (lit "<li>") with ("<"%char :: lit "li>").
    rewrite contains_stretch, par_passed by (reflexivity || tauto).
    rewrite contains_miss by reflexivity. apply contains_stretch. reflexivity.
  - change (lit "<p></p>") with ("<"%char :: lit "p></p>").
    rewrite contains_stretch, par_passed by (reflexivity || tauto).
    rewrite contains_miss by reflexivity. apply contains_stretch. reflexivity.
  - change (lit "<br>") with ("<"%char :: lit "br>").
    rewrite contains_stretch, par_passed by (reflexivity || tauto).
    rewrite contains_miss by reflexivity. apply contains_stretch. reflexivity.
  - rewrite contains_stretch, par_no_newline by (reflexivity || exact Hw).
    rewrite contains_miss by reflexivity. apply contains_stretch. reflexivity.
Qed.

Lemma quotes_lack p lines :
  p = lit "<li>" \/ p = lit "<p></p>" \/ p = lit "<br>" \/ p = [nl; nl] ->
  Forall (fun l => words l = true) lines ->
  contains p (join_nl (map quote lines)) = false.
Proof.
  intros Hp H. rewrite <- (app_nil_r (join_nl _)).
  rewrite contains_joined.
  - destruct Hp as [->|[->|[->| ->]]]; reflexivity.
  - eapply Forall_impl; [exact H|]. intros l Hl t.
    apply quote_passed; assumption.
  - eapply Forall_impl; [exact H|]. intros l Hl t.
    apply contains_miss. destruct Hp as [->|[->|[->| ->]]]; reflexivity.
Qed.

(** Steps 1 to 5 turn a quote line into a quote. *)
Lemma quote_through_step_5 l :
  words l = true ->
  line_through_step_5 (quote_line l) = quote l
  /\ one_line (quote_line l) = true /\ bare_header (quote_line l) = false.
Proof.
  intros Hw. destruct (words_parts l Hw) as ([c [r Hl]] & Hp & Hls & Hrs).
  destruct (plain_lacks _ Hp) as (Hstar & _ & _ & Hline).
  assert (Hne : l <> []) by (rewrite Hl; discriminate).
  destruct (not_header_untouched (quote_line l)) as [Hc Hb]; [reflexivity..|].
  split; [|split; [|exact Hb]].
  - unfold line_through_step_5. rewrite Hc.
    rewrite star_free_emphasis
      by (unfold quote_line; rewrite lacks_app, Hstar; reflexivity).
    assert (Hstrip : strip (quote_line l) = quote_line l).
    { apply strip_fix; [apply (lstrip_fix ">"%char); reflexivity|].
      apply rstrip_app_fix; assumption. }
    unfold process_line. rewrite Hstrip. reflexivity.
  - unfold one_line, quote_line in *. rewrite forallb_app, Hline. reflexivity.
Qed.

Lemma quote_ends l : endswith [">"%char] (quote l) = true.
Proof.
  rewrite <- (app_nil_r (quote l)), quote_shape.
  apply (endswith_last _ ("<"%char :: quote_open)), endswith_last.
  reflexivity.
Qed.

(** A text of quote lines becomes its quotes, one on each line: such a
    line is [> ] and then plain words, which the quote holds in a
    paragraph. *)
Theorem quote_lines_become_blockquotes (lines : list str) :
  lines <> [] -> Forall (fun l => words l = true) lines ->
  convert_to_markup (join_nl (map quote_line lines)) = join_nl (map quote lines).
Proof.
  intros Hne H.
  assert (H5 : through_step_5 (join_nl (map quote_line lines))
               = join_nl (map quote lines)).
  { rewrite through_step_5_lines.
    - rewrite map_map. f_equal. apply map_ext_Forall.
      eapply Forall_impl; [exact H|]. intros l Hl.
      apply quote_through_step_5, Hl.
    - destruct lines; [congruence|discriminate].
    - apply Forall_map. eapply Forall_impl; [exact H|]. intros l Hl.
      apply quote_through_step_5 in Hl. tauto. }
  assert (Hfalsy : falsy (join_nl (map quote_line lines)) = false).
  { destruct lines as [|l ls]; [congruence|]. destruct ls; reflexivity. }
  unfold convert_to_markup. rewrite Hfalsy.
  change (process_lines (emphasis (headers_and_rules
            (join_nl (map quote_line lines)))))
    with (through_step_5 (join_nl (map quote_line lines))).
  rewrite H5, group_items_absent, clean_up_absent
    by (apply quotes_lack; [tauto|exact H]).
  destruct lines as [|l ls]; [congruence|].
  apply strip_fix.
  - destruct (join_starts quote "<"%char l ls) as [r ->];
      [intros x; unfold quote; eauto|].
    apply lstrip_fix. reflexivity.
  - apply (rstrip_fix _ ">"%char); [|reflexivity].
    change (map quote (l :: ls)) with (quote l :: map quote ls).
    apply endswith_join.
    clear. revert l. induction ls as [|l2 ls IH]; intros l; [|exact (IH l2)].
    apply quote_ends.
Qed.

Lemma quote_lines_become_blockquotes_witness :
  let lines := [lit "To be,"; lit "or not to be"] in
  lines <> []
  /\ Forall (fun l => words l = true) lines
  /\ convert_to_markup (lit "> To be," ++ nl :: lit "> or not to be")
     = quote (lit "To be,") ++ nl :: quote (lit "or not to be").
Proof.
  intros lines.
  assert (Hne : lines <> []) by discriminate.
  assert (H : Forall (fun l => words l = true) lines) by (repeat constructor).
  split; [exact Hne|]. split; [exact H|].
  exact (quote_lines_become_blockquotes lines Hne H).
Defined.

(** *** White space around the lines *)









Section Padding.

Variable m : matcher.
Variable ws : str.
Hypothesis Hconf : confined m.
Hypothesis Hpad : forall b x, m b (x ++ ws) = m b x.
Hypothesis Hws : forall b, sub_from m b 0 ws = ws.


End Padding.






End MarkupMore.

(** ** The service *)

Module ServiceMore.

Import Judge Service Access Shape ServiceFacts.

Section WithProvider.

Variable Num : Type.
Variable parse_int parse_float : str -> str + Num.
Variable environ : gmap string str.
Variable create_completion : Request Num -> str + str.
Variable create_stream : Request Num -> str + list (option str).
Variable validate_csrf_token : str -> bool.
Variable validation_error : str.

Local Abbreviation call :=
  (call_cerebras_model Num parse_int parse_float environ
     create_completion create_stream).
Local Abbreviation result :=
  (call_result Num parse_int parse_float environ create_completion create_stream).
Local Abbreviation sent :=
  (call_sent Num parse_int parse_float environ create_completion create_stream).
Local Abbreviation fan_out :=
  (fan_out Num parse_int parse_float environ create_completion create_stream).
Local Abbreviation process_with_judge :=
  (process_with_judge Num parse_int parse_float environ
     create_completion create_stream).
Local Abbreviation ask_question :=
  (ask_question Num parse_int parse_float environ
     create_completion create_stream validation_error).
Local Abbreviation web_ask_question :=
  (web_ask_question Num parse_int parse_float environ
     create_completion create_stream validate_csrf_token).
Local Abbreviation outcomes3 m1 m2 m3 q sys :=
  [(result m1 q sys, sent m1 q sys); (result m2 q sys, sent m2 q sys);
   (result m3 q sys, sent m3 q sys)].

(** *** One call *)

Lemma call_kinds model q sys :
  match result model q sys with
  | inr _ => length (sent model q sys) = 1
  | inl (HTTPException code detail) =>
      code = 500
      /\ (exists e, detail = lit "Error calling " ++ model ++ lit ": " ++ e)
      /\ length (sent model q sys) = 1
  | inl (OtherException type_name _) =>
      type_name = lit "ValueError" /\ sent model q sys = []
  end.
Proof.
  unfold call_result, call_sent, call_cerebras_model.
  unfold mbind, M_bind, bind, lift_value_error, raise, ret, send.
  destruct (parse_int _); [split; reflexivity|].
  destruct (parse_float _); [split; reflexivity|].
  destruct (parse_float _); [split; reflexivity|].
  cbn [fst snd app]. destruct (str_eqb _ _).
  - destruct (create_stream _); cbn [fst snd]; eauto.
  - destruct (create_completion _); cbn [fst snd]; eauto.
Qed.

(** A call contacts the provider once, and not at all when a numeric
    setting does not parse.  It raises nothing but the [ValueError] of a
    bad setting, before the request, and an [HTTPException] with status
    500 that names the model, after it. *)
Theorem call_outcomes (model question system_message : str)
    (w : list (Request Num)) :
  exists requests,
    snd (call model question system_message w) = w ++ requests
    /\ match fst (call model question system_message w) with
       | inr _ => length requests = 1
       | inl (HTTPException code detail) =>
           code = 500
           /\ (exists e, detail = lit "Error calling " ++ model ++ lit ": " ++ e)
           /\ length requests = 1
       | inl (OtherException type_name _) =>
           type_name = lit "ValueError" /\ requests = []
       end.
Proof.
  exists (sent model question system_message).
  rewrite (call_pure _ _ _ _ _ _ model question system_message w).
  cbn [fst snd]. split; [reflexivity|]. apply call_kinds.
Qed.

Lemma call_error_status model q sys e :
  result model q sys = inl e -> status_500 e.
Proof.
  intros H. pose proof (call_kinds model q sys) as K. rewrite H in K.
  destruct e; [apply K|exact I].
Qed.

Lemma accumulate_concat chunks content :
  accumulate chunks content = content ++ concat (map (default []) chunks).
Proof.
  revert content. induction chunks as [|[[|c x]|] chunks IH]; intros content;
    cbn [accumulate map concat default].
  - rewrite app_nil_r. reflexivity.
  - apply IH.
  - rewrite IH, <- app_assoc. reflexivity.
  - apply IH.
Qed.

(** With streaming on, a call returns the fragments of the stream put
    together in their order; a fragment without content adds nothing. *)
Theorem stream_is_concatenated (model question system_message : str)
    (max_tokens temperature top_p : Num) (chunks : list (option str)) :
  parse_int (getenv_or environ "MAX_TOKENS" (lit "1024")) = inr max_tokens ->
  parse_float (getenv_or environ "TEMPERATURE" (lit "0.7")) = inr temperature ->
  parse_float (getenv_or environ "TOP_P" (lit "0.8")) = inr top_p ->
  lower (getenv_or environ "STREAM" (lit "false")) = lit "true" ->
  create_stream
    (mkRequest model
       ((if falsy system_message then []
         else [mkMessage (lit "system") system_message])
        ++ [mkMessage (lit "user") question])
       max_tokens temperature top_p true) = inr chunks ->
  result model question system_message
  = inr (concat (map (default []) chunks)).
Proof.
  intros Hm Ht Hp Hs Hc. unfold call_result, call_cerebras_model.
  unfold mbind, M_bind, bind, lift_value_error, raise, ret, send.
  rewrite Hm. cbn [fst snd]. rewrite Ht, Hp. cbn [fst snd].
  rewrite Hs. unfold str_eqb. rewrite bool_decide_eq_true_2 by reflexivity.
  rewrite Hc. cbn [fst]. rewrite accumulate_concat. reflexivity.
Qed.


(** *** The errors of the stages *)

Lemma first_failure_in outcomes order e :
  first_failure Num outcomes order = Some e ->
  exists i s, outcomes !! i = Some (inl e, s).
Proof.
  induction order as [|i rest IH]; [discriminate|]. cbn [first_failure].
  destruct (outcomes !! i) as [[[e'|r] s]|] eqn:E; try exact IH.
  intros H. injection H as <-. eauto.
Qed.

Lemma fan_out_errors delay m1 m2 m3 q sys w e w' :
  fan_out delay m1 m2 m3 q sys w = (inl e, w') -> status_500 e.
Proof.
  unfold Service.fan_out, mbind, M_bind, bind.
  rewrite (gather_pure Num delay _ _ w
             (tasks_outcomes Num parse_int parse_float environ create_completion
                create_stream m1 m2 m3 q sys)).
  cbn zeta. destruct (first_failure Num _ _) as [e1|] eqn:Ef.
  - intros H. injection H as <- _.
    destruct (first_failure_in _ _ _ Ef) as (i & s & Hi).
    destruct i as [|[|[|i]]]; cbn [lookup list_lookup] in Hi;
      try (injection Hi as Hr _; apply call_error_status in Hr; exact Hr).
    destruct i; discriminate.
  - set (l := default [] <$> slots _). clearbody l. unfold item, raise, ret.
    do 3 (match goal with
          | |- context [match ?x with Some _ => _ | None => _ end] => destruct x
          end; cbn beta iota; [|intros H; injection H as <- _; exact I]).
    discriminate.
Qed.

Lemma judge_errors q triple w e w' :
  process_with_judge q triple w = (inl e, w') -> status_500 e.
Proof.
  unfold Service.process_with_judge, getenv, raise.
  destruct (environ !! "JUDGE") as [[|c jm]|];
    try (intros H; injection H as <- _; reflexivity).
  unfold mbind, M_bind, bind.
  rewrite (call_pure _ _ _ _ _ _ (c :: jm) _ _ w).
  destruct (result (c :: jm) _ _) as [e'|raw] eqn:Er; [|discriminate].
  intros H. injection H as <- _. eapply call_error_status, Er.
Qed.

Lemma surface_status e :
  status_500 e -> exists detail, surface e = HTTPException 500 detail.
Proof. destruct e as [code detail|t m]; simpl; [intros ->|]; eauto. Qed.

(** Whatever fails, the endpoints raise an [HTTPException].  The
    handler of [POST /ask] raises status 500 only: a [None] refused by
    [ModelResponse] is a [ValidationError], which the second [except]
    clause wraps.  The endpoint raises 500, or 401 from the dependency,
    before anything is sent, for a key that is not the one expected.
    [POST /web-ask] raises 500, or 403 for a token that is not valid. *)
Theorem endpoints_raise_http_errors (delay : nat -> nat)
    (code_x_key question system_message csrf_token : str)
    (w w' : list (Request Num)) (e : exn) :
  (ask_question delay question system_message w = (inl e, w') ->
   exists detail, e = HTTPException 500 detail)
  /\ (post_ask parse_int parse_float environ create_completion create_stream
        validation_error delay code_x_key question system_message w
      = (inl e, w') ->
      exists detail,
        e = HTTPException 500 detail
        \/ (e = HTTPException 401 detail /\ w' = w
            /\ exists expected,
                 environ !! "CODE_X_KEY" = Some expected
                 /\ expected <> [] /\ code_x_key <> expected))
  /\ (web_ask_question delay question csrf_token w = (inl e, w') ->
      exists detail,
        e = HTTPException 500 detail
        \/ (validate_csrf_token csrf_token = false
            /\ e = HTTPException 403 detail)).
Proof.
  assert (Hbody : forall m1 m2 m3 sys A (k : gmap string str -> JudgeResult -> M Num A),
            (forall t j w1 e1 w2, k t j w1 = (inl e1, w2) -> status_500 e1) ->
            forall e0 w0,
            @bind Num _ _ (fan_out delay m1 m2 m3 question sys)
              (fun triple =>
                 @bind Num _ _ (process_with_judge question triple)
                   (fun judged => k triple judged))
              w = (inl e0, w0) -> status_500 e0).
  { intros m1 m2 m3 sys A k Hk e0 w0. unfold bind.
    destruct (fan_out delay m1 m2 m3 question sys w) as [[e1|triple] w1] eqn:Ef.
    - intros H. injection H as <- _. eapply fan_out_errors, Ef.
    - destruct (process_with_judge question triple w1) as [[e1|judged] w2] eqn:Ej.
      + intros H. injection H as <- _. eapply judge_errors, Ej.
      + apply Hk. }
  assert (Hask : forall sys e0 w0,
            ask_question delay question sys w = (inl e0, w0) ->
            exists detail, e0 = HTTPException 500 detail).
  { intros sys e0 w0. unfold Service.ask_question.
    destruct (models_configured environ) as [[[m1 m2] m3]|].
    - unfold try_except.
      match goal with |- context [match ?b w with _ => _ end] =>
        destruct (b w) as [[e1|r] w1] eqn:Eb end; [|discriminate].
      unfold reraise, raise. intros H. injection H as <- _.
      apply surface_status.
      eapply (Hbody m1 m2 m3 sys ModelResponse
                (fun triple judged => ModelResponse_new Num validation_error question _ judged));
        [|exact Eb].
      intros t j w1' e1' w2'. unfold ModelResponse_new, raise, ret.
      destruct (if str_eqb _ _ then _ else _); [discriminate|].
      intros H. injection H as <- _. exact I.
    - unfold raise. intros H. injection H as <- _. eauto. }
  split; [apply Hask|]. split.
  - unfold post_ask, verify_api_key.
    destruct (environ !! "CODE_X_KEY") as [[|c expected]|] eqn:Ek;
      try (intros H; injection H as <- _; eauto).
    unfold str_eqb. case_bool_decide as E; cbn [negb].
    + intros H. apply Hask in H as [detail ->]. eauto.
    + intros H. injection H as <- <-. eexists. right.
      split; [reflexivity|]. split; [reflexivity|].
      exists (c :: expected). split; [reflexivity|]. split; [discriminate|exact E].
  - unfold Service.web_ask_question.
    destruct (validate_csrf_token csrf_token) eqn:Ev; cbn [negb].
    + unfold try_except.
      destruct (models_configured environ) as [[[m1 m2] m3]|].
      * match goal with |- context [match ?b w with _ => _ end] =>
          destruct (b w) as [[e0|r] w0] eqn:Eb end; [|discriminate].
        unfold reraise, raise. intros H. injection H as <- _.
        destruct (surface_status e0) as [d Hd]; [|eauto].
        eapply (Hbody m1 m2 m3 [] WebResponse
                  (fun triple judged =>
                     @ret Num _ (mkWebResponse (jr_final_answer judged))));
          [|exact Eb].
        intros t j w1' e1' w2'. unfold ret. discriminate.
      * unfold raise, reraise, raise. cbn [surface].
        intros H. injection H as <- _. eauto.
    + unfold raise. intros H. injection H as <- _. eauto.
Qed.


(** *** The stages together *)

(** With the three model names set, the three backend calls and the
    call of the judge succeeding, the handler of [POST /ask] has sent the
    three backend requests and then the one to the judge.  When
    [SHOW_MODEL_OUTPUT] reads true in any case of letters it returns the
    question, the three texts and the parsed reply of the judge.
    Otherwise it passes [None] for the texts, which [ModelResponse]
    refuses: the handler raises status 500, the four requests sent. *)
Theorem ask_question_after_the_judge (delay : nat -> nat)
    (question system_message : str)
    (w : list (Request Num)) (m1 m2 m3 judge_model t1 t2 t3 raw : str) :
  models_configured environ = Some (m1, m2, m3) ->
  result m1 question system_message = inr t1 ->
  result m2 question system_message = inr t2 ->
  result m3 question system_message = inr t3 ->
  environ !! "JUDGE" = Some judge_model -> judge_model <> [] ->
  let triple : gmap string str :=
    <["MODEL1" := t1]> (<["MODEL2" := t2]> (<["MODEL3" := t3]> ∅)) in
  let prompt := judge_prompt environ question triple in
  result judge_model prompt judge_system_message = inr raw ->
  ask_question delay question system_message w
  = (if str_eqb (lower (getenv_or environ "SHOW_MODEL_OUTPUT" (lit "false")))
                (lit "true")
     then inr (mkModelResponse question (Some triple) (parse_judge raw))
     else inl (HTTPException 500
                 (lit "Error processing request: " ++
                  if falsy validation_error
                  then lit "Unknown error of type ValidationError"
                  else validation_error)),
     (w ++ trace Num (outcomes3 m1 m2 m3 question system_message)
             (completion_order delay 3))
     ++ sent judge_model prompt judge_system_message).
Proof.
  intros Hm H1 H2 H3 Hj Hne triple prompt Hraw.
  unfold Service.ask_question. rewrite Hm.
  unfold try_except, mbind, M_bind, bind.
  rewrite (fan_out_ok Num parse_int parse_float environ create_completion
             create_stream delay m1 m2 m3 question system_message w t1 t2 t3
             H1 H2 H3).
  unfold Service.process_with_judge, getenv. rewrite Hj.
  destruct judge_model as [|c jm]; [congruence|].
  unfold mbind, M_bind, bind.
  rewrite (call_pure Num parse_int parse_float environ create_completion
             create_stream (c :: jm) _ _ _).
  fold triple. fold prompt. rewrite Hraw. cbn [fst snd].
  unfold ModelResponse_new.
  destruct (str_eqb _ _); reflexivity.
Qed.


(** The judge is looked up after the fan-out: without a judge model the
    endpoint raises status 500, and the three backend requests have been
    sent already. *)
Theorem judge_is_checked_after_fan_out (delay : nat -> nat)
    (question system_message : str) (w : list (Request Num))
    (m1 m2 m3 t1 t2 t3 : str) :
  models_configured environ = Some (m1, m2, m3) ->
  result m1 question system_message = inr t1 ->
  result m2 question system_message = inr t2 ->
  result m3 question system_message = inr t3 ->
  environ !! "JUDGE" = (None : option str)
  \/ environ !! "JUDGE" = Some ([] : str) ->
  ask_question delay question system_message w
  = (inl (HTTPException 500 (lit "Judge model not configured")),
     w ++ trace Num (outcomes3 m1 m2 m3 question system_message)
            (completion_order delay 3))
  /\ length (trace Num (outcomes3 m1 m2 m3 question system_message)
               (completion_order delay 3)) = 3.
Proof.
  intros Hm H1 H2 H3 Hj. split.
  - unfold Service.ask_question. rewrite Hm.
    unfold try_except, mbind, M_bind, bind.
    rewrite (fan_out_ok Num parse_int parse_float environ create_completion
               create_stream delay m1 m2 m3 question system_message w t1 t2 t3
               H1 H2 H3).
    unfold Service.process_with_judge, getenv.
    destruct Hj as [-> | ->]; reflexivity.
  - pose proof (call_kinds m1 question system_message) as K1.
    pose proof (call_kinds m2 question system_message) as K2.
    pose proof (call_kinds m3 question system_message) as K3.
    rewrite H1 in K1. rewrite H2 in K2. rewrite H3 in K3.
    assert (Hperm : completion_order delay 3 ≡ₚ [0; 1; 2])
      by apply completion_order_perm.
    unfold trace.
    assert (Hlen : forall order,
              Forall (fun i => i < 3) order ->
              length (flat_map
                (fun i => match outcomes3 m1 m2 m3 question system_message !! i with
                          | Some (_, s) => s
                          | None => []
                          end) order) = length order).
    { induction 1 as [|i order Hi _ IH]; [reflexivity|].
      cbn [flat_map]. rewrite length_app, IH. cbn [length].
      match goal with
      | |- length ?s + _ = _ => assert (Hs : length s = 1)
      end.
      { destruct i as [|[|[|i]]]; cbn [lookup list_lookup]; try assumption; lia. }
      rewrite Hs. reflexivity. }
    rewrite Hlen.
    + rewrite Hperm. reflexivity.
    + rewrite Hperm. repeat constructor.
Qed.

(** A model name that is missing or empty stops both endpoints with
    status 500 before any request is sent; so does, with status 403, a
    token that is not valid. *)
Theorem nothing_is_sent_unconfigured (delay : nat -> nat)
    (question system_message csrf_token : str) (w : list (Request Num))
    (k : string) :
  k ∈ ["MODEL1"; "MODEL2"; "MODEL3"] ->
  environ !! k = (None : option str) \/ environ !! k = Some ([] : str) ->
  ask_question delay question system_message w
  = (inl (HTTPException 500 (lit "Models not properly configured")), w)
  /\ web_ask_question delay question csrf_token w
     = (inl (HTTPException (if validate_csrf_token csrf_token then 500 else 403)
               (if validate_csrf_token csrf_token
                then lit "Models not properly configured"
                else lit "Invalid or expired CSRF token")), w).
Proof.
  intros Hk Hv.
  assert (Hm : models_configured environ = None).
  { unfold models_configured, getenv.
    apply elem_of_cons in Hk as [->|Hk];
      [|apply elem_of_cons in Hk as [->|Hk];
        [|apply elem_of_cons in Hk as [->|Hk];
          [|apply elem_of_nil in Hk; contradiction]]];
      destruct Hv as [-> | ->];
      repeat match goal with
             | |- context [match environ !! ?x with _ => _ end] =>
                 destruct (environ !! x) as [[|]|]
             end; reflexivity. }
  split.
  - unfold Service.ask_question. rewrite Hm. reflexivity.
  - unfold Service.web_ask_question. rewrite Hm.
    destruct (validate_csrf_token csrf_token); reflexivity.
Qed.

(** With a valid token, and a key that is accepted, [POST /web-ask] is
    [POST /ask] with an empty system message, up to what is returned:
    both send the same requests; what the one raises the other raises,
    but for the [None] that [ModelResponse] refuses when
    [SHOW_MODEL_OUTPUT] does not read true; and the web endpoint returns
    the final answer of what the API endpoint returns. *)
Theorem web_is_ask_without_system_message (delay : nat -> nat)
    (code_x_key question csrf_token : str) (w : list (Request Num)) :
  validate_csrf_token csrf_token = true ->
  verify_api_key environ code_x_key = inr code_x_key ->
  let web := web_ask_question delay question csrf_token w in
  let ask :=
    post_ask parse_int parse_float environ create_completion create_stream
      validation_error delay code_x_key question [] w in
  snd web = snd ask
  /\ (forall r, fst ask = inr r ->
        fst web = inr (mkWebResponse (jr_final_answer (mr_judge r))))
  /\ (forall e, fst web = inl e -> fst ask = inl e)
  /\ (str_eqb (lower (getenv_or environ "SHOW_MODEL_OUTPUT" (lit "false")))
              (lit "true") = true ->
      forall e, fst ask = inl e -> fst web = inl e).
Proof.
  intros Hv Hk web ask. unfold web, ask, post_ask. rewrite Hk.
  unfold Service.web_ask_question, Service.ask_question.
  rewrite Hv. cbn [negb].
  unfold try_except, mbind, M_bind, bind, reraise, raise.
  destruct (models_configured environ) as [[[m1 m2] m3]|].
  2:{ cbn [fst snd surface]. repeat split; intros; (discriminate || congruence). }
  destruct (fan_out delay m1 m2 m3 question [] w) as [[e|triple] w1].
  { cbn [fst snd]. repeat split; intros; (discriminate || congruence). }
  destruct (process_with_judge question triple w1) as [[e|judged] w2].
  { cbn [fst snd]. repeat split; intros; (discriminate || congruence). }
  unfold ModelResponse_new, raise, ret.
  destruct (str_eqb _ _); cbn [fst snd].
  - split; [reflexivity|]. split; [|split; intros; discriminate].
    intros r H. injection H as <-. reflexivity.
  - split; [reflexivity|]. split; [|split]; intros; discriminate.
Qed.


End WithProvider.

(** The API key is accepted when, and only when, [CODE_X_KEY] is set, is
    not empty and is the key of the header; the key returned is that of
    the header.  So an empty header is never accepted. *)
Theorem api_key_accepted (environ : gmap string str) (code_x_key : str) :
  ((exists key, verify_api_key environ code_x_key = inr key)
   <-> code_x_key <> [] /\ environ !! "CODE_X_KEY" = Some code_x_key)
  /\ (forall key, verify_api_key environ code_x_key = inr key -> key = code_x_key)
  /\ (forall key, verify_api_key environ [] <> inr key).
Proof.
  unfold verify_api_key, str_eqb. split; [|split].
  - destruct (environ !! "CODE_X_KEY") as [[|c expected]|].
    + split; [intros [key H]; discriminate|intros [H1 H2]; congruence].
    + case_bool_decide as E; cbn [negb].
      * subst. split; [intros _; split; [discriminate|reflexivity]|eauto].
      * split; [intros [key H]; discriminate|].
        intros [_ H]. congruence.
    + split; [intros [key H]; discriminate|intros [_ H]; discriminate].
  - intros key. destruct (environ !! "CODE_X_KEY") as [[|c expected]|];
      try discriminate.
    case_bool_decide; cbn [negb]; [congruence|discriminate].
  - intros key. destruct (environ !! "CODE_X_KEY") as [[|c expected]|];
      discriminate.
Qed.

Import Scenario Settings.

Lemma stream_is_concatenated_witness :
  lower (getenv_or streaming "STREAM" (lit "false")) = lit "true"
  /\ call_result nat parse parse streaming answers fragments
       (lit "alpha") (lit "Why?") []
     = inr (lit "FINAL_ANSWER: streamed answer").
Proof.
  split; [reflexivity|].
  exact (stream_is_concatenated nat parse parse streaming answers fragments
           (lit "alpha") (lit "Why?") [] 0 0 0 _
           eq_refl eq_refl eq_refl eq_refl eq_refl).
Defined.

Lemma endpoints_raise_http_errors_witness :
  (exists e w',
     Service.ask_question nat parse parse environ beta_down no_stream refused
       delays (lit "Why?") [] [] = (inl e, w')
     /\ exists detail, e = HTTPException 500 detail)
  /\ (exists e w',
        post_ask parse parse streaming answers fragments refused delays
          (lit "guess") (lit "Why?") [] [] = (inl e, w')
        /\ exists detail,
             e = HTTPException 500 detail
             \/ (e = HTTPException 401 detail /\ w' = []
                 /\ exists expected,
                      streaming !! "CODE_X_KEY" = Some expected
                      /\ expected <> [] /\ lit "guess" <> expected))
  /\ (exists e w',
        Service.web_ask_question nat parse parse environ answers no_stream
          invalid delays (lit "Why?") (lit "token") [] = (inl e, w')
        /\ exists detail,
             e = HTTPException 500 detail
             \/ (invalid (lit "token") = false /\ e = HTTPException 403 detail)).
Proof.
  split; [|split].
  - eexists _, _. split; [reflexivity|].
    exact (proj1 (endpoints_raise_http_errors nat parse parse environ beta_down
                    no_stream invalid refused delays (lit "guess") (lit "Why?") []
                    (lit "token") [] _ _)
             eq_refl).
  - eexists _, _. split; [reflexivity|].
    exact (proj1 (proj2 (endpoints_raise_http_errors nat parse parse streaming
                           answers fragments invalid refused delays (lit "guess")
                           (lit "Why?") [] (lit "token") [] _ _))
             eq_refl).
  - eexists _, _. split; [reflexivity|].
    exact (proj2 (proj2 (endpoints_raise_http_errors nat parse parse environ
                           answers no_stream invalid refused delays (lit "guess")
                           (lit "Why?") [] (lit "token") [] _ _))
             eq_refl).
Defined.

Lemma ask_question_after_the_judge_witness :
  models_configured streaming = Some (lit "alpha", lit "beta", lit "gamma")
  /\ (exists triple w',
        Service.ask_question nat parse parse streaming answers fragments refused
          delays (lit "Why?") [] []
        = (inr (mkModelResponse (lit "Why?") (Some triple)
                  (mkJudgeResult (lit "streamed answer") [])), w')
        /\ triple !! "MODEL2" = Some (lit "FINAL_ANSWER: streamed answer")
        /\ length w' = 4)
  /\ (exists w',
        Service.ask_question nat parse parse environ answers no_stream refused
          delays (lit "Why?") [] []
        = (inl (HTTPException 500
                  (lit "Error processing request: models: Input should be a valid dictionary")),
           w')
        /\ length w' = 4).
Proof.
  split; [reflexivity|]. split.
  - pose proof (ask_question_after_the_judge nat parse parse streaming answers
                  fragments refused delays (lit "Why?") [] [] (lit "alpha")
                  (lit "beta") (lit "gamma") (lit "judge") _ _ _ _
                  eq_refl eq_refl eq_refl eq_refl eq_refl
                  ltac:(discriminate) eq_refl) as H.
    eexists _, _. split; [exact H|]. split; reflexivity.
  - pose proof (ask_question_after_the_judge nat parse parse environ answers
                  no_stream refused delays (lit "Why?") [] [] (lit "alpha")
                  (lit "beta") (lit "gamma") (lit "judge") _ _ _ _
                  eq_refl eq_refl eq_refl eq_refl eq_refl
                  ltac:(discriminate) eq_refl) as H.
    eexists. split; [exact H|]. reflexivity.
Defined.

Lemma judge_is_checked_after_fan_out_witness :
  judgeless !! "JUDGE" = (None : option str)
  /\ Service.ask_question nat parse parse judgeless answers no_stream refused
       delays (lit "Why?") [] []
     = (inl (HTTPException 500 (lit "Judge model not configured")),
        [mkRequest (lit "gamma") [mkMessage (lit "user") (lit "Why?")] 0 0 0 false;
         mkRequest (lit "beta") [mkMessage (lit "user") (lit "Why?")] 0 0 0 false;
         mkRequest (lit "alpha") [mkMessage (lit "user") (lit "Why?")] 0 0 0 false]).
Proof.
  split; [reflexivity|].
  exact (proj1 (judge_is_checked_after_fan_out nat parse parse judgeless answers
                  no_stream refused delays (lit "Why?") [] [] (lit "alpha")
                  (lit "beta") (lit "gamma") _ _ _ eq_refl eq_refl eq_refl eq_refl
                  (or_introl eq_refl))).
Defined.

Lemma nothing_is_sent_unconfigured_witness :
  incomplete !! "MODEL2" = Some ([] : str)
  /\ Service.ask_question nat parse parse incomplete answers no_stream refused
       delays (lit "Why?") [] []
     = (inl (HTTPException 500 (lit "Models not properly configured")), [])
  /\ Service.web_ask_question nat parse parse incomplete answers no_stream
       invalid delays (lit "Why?") (lit "token") []
     = (inl (HTTPException 403 (lit "Invalid or expired CSRF token")), []).
Proof.
  split; [reflexivity|].
  exact (nothing_is_sent_unconfigured nat parse parse incomplete answers
           no_stream invalid refused delays (lit "Why?") [] (lit "token") []
           "MODEL2" ltac:(do 2 constructor)
           (or_intror eq_refl)).
Defined.

Lemma web_is_ask_without_system_message_witness :
  valid (lit "token") = true
  /\ verify_api_key streaming (lit "s3cret") = inr (lit "s3cret")
  /\ fst (Service.web_ask_question nat parse parse streaming answers fragments
            valid delays (lit "Why?") (lit "token") [])
     = inr (mkWebResponse (lit "streamed answer")).
Proof.
  split; [reflexivity|]. split; [reflexivity|].
  pose proof (web_is_ask_without_system_message nat parse parse streaming
                answers fragments valid refused delays (lit "s3cret")
                (lit "Why?") (lit "token") [] eq_refl eq_refl) as H.
  cbv zeta in H. destruct H as (_ & H & _).
  exact (H _ eq_refl).
Defined.

Lemma api_key_accepted_witness :
  streaming !! "CODE_X_KEY" = Some (lit "s3cret")
  /\ (exists key, verify_api_key streaming (lit "s3cret") = inr key)
  /\ verify_api_key streaming [] <> inr [].
Proof.
  split; [reflexivity|].
  destruct (api_key_accepted streaming (lit "s3cret")) as [[_ H] _].
  destruct (api_key_accepted streaming []) as [_ [_ H0]].
  split; [apply H; split; [discriminate|reflexivity]|apply H0].
Defined.

End ServiceMore.
